(** * ZipReader: a ZIP table-of-contents reader over HTTP range requests

    A shallow embedding of [src/lib/zip_reader.ts] (class [ZipReader]) and
    the properties of it that the design document states.

    Conventions of the embedding.

    - A JavaScript number is a [jsnum]: an exact integer or [NaN].  Every
      number the reader handles is an integer (decoded unsigned fields, their
      sums and differences, the result of [parseInt]); the model is exact
      for magnitudes up to 2^53, beyond which a double would round.
    - An [ArrayBuffer]/[Uint8Array] is a [list byte].
    - A JavaScript string is the list of its UTF-16 code units, so that
      [.length] is [length].
    - The host (the [fetch] function of the runtime, and the Unicode
      lower-casing of [String.prototype.toLowerCase]) is a type class; the
      network carries a state of its own, and every request issued is
      appended to a trace.
    - Methods run in a state-and-exception monad over the reader object
      ([this]), the network state and the trace.  A thrown exception keeps
      the state reached so far, as in JavaScript. *)

From Stdlib Require Import ZArith NArith List String Ascii Bool Lia.
From Stdlib.Strings Require Import Byte.
Import ListNotations.

Local Open Scope Z_scope.

(* ================================================================== *)
(** * Part I. The model *)
(* ================================================================== *)

(** ** JavaScript numbers *)

Inductive jsnum : Type :=
| NaN
| Num (z : Z).

(** [!x] for a number [x]: true for [0] and [NaN]. *)
Definition falsy (x : jsnum) : bool :=
  match x with
  | NaN => true
  | Num z => z =? 0
  end.

Definition num_add (a b : jsnum) : jsnum :=
  match a, b with
  | Num x, Num y => Num (x + y)
  | _, _ => NaN
  end.

Definition num_sub (a b : jsnum) : jsnum :=
  match a, b with
  | Num x, Num y => Num (x - y)
  | _, _ => NaN
  end.

(** [Math.min(a, b)]: [NaN] as soon as one argument is [NaN]. *)
Definition Math_min (a b : jsnum) : jsnum :=
  match a, b with
  | Num x, Num y => Num (Z.min x y)
  | _, _ => NaN
  end.

Declare Scope jsnum_scope.
Delimit Scope jsnum_scope with js.
Infix "+" := num_add : jsnum_scope.
Infix "-" := num_sub : jsnum_scope.

(** ** Errors and results *)

(** The exceptions the reader can raise.  The source throws [Error] objects
    told apart by their message (and one bare string); the design document
    names them TransportError ([FetchFailed], [HttpError], [BodyFailed]),
    MissingLengthError ([NoContentLength]), RecordNotFoundError
    ([EOCDNotFound]) and SignatureMismatchError
    ([InvalidCentralDirSignature]).  [RangeError] is what a [DataView]
    accessor throws when it reads outside the buffer. *)
Inductive JsError : Type :=
| FetchFailed                    (* fetch() itself rejected *)
| HttpError (status : Z)         (* 'HTTP error! Status: ...' *)
| BodyFailed                     (* response.arrayBuffer() rejected *)
| NoContentLength                (* "Couldn't get content length from headers" *)
| InvalidEOCDSignature           (* 'Invalid EOCD signature' *)
| EOCDNotFound                   (* 'EOCD record not found' *)
| InvalidCentralDirSignature     (* 'Invalid central directory entry signature' *)
| RangeError.                    (* DataView access out of bounds *)

Inductive Result (A : Type) : Type :=
| Ok (a : A)
| Err (e : JsError).
Arguments Ok {A} a.
Arguments Err {A} e.

Definition res_bind {A B} (r : Result A) (k : A -> Result B) : Result B :=
  match r with
  | Ok a => k a
  | Err e => Err e
  end.

Notation "'let?' x ':=' r 'in' k" := (res_bind r (fun x => k))
  (at level 10, x name, r at level 100, k at level 200).

(** ** Byte buffers and [DataView] *)

Definition byte_to_Z (b : byte) : Z := Z.of_N (Byte.to_N b).

(** [buffer.slice(start, end)] / [bytes.slice(start, end)] for
    [0 <= start <= end]: the elements at positions [start .. end - 1] that
    exist. *)
Definition slice {A} (l : list A) (start end_ : Z) : list A :=
  firstn (Z.to_nat (end_ - start)) (skipn (Z.to_nat start) l).

(** [view.getUint16(off, true)]: little-endian; throws [RangeError] unless
    [0 <= off] and [off + 2 <= byteLength]. *)
Definition getUint16 (buffer : list byte) (off : Z) : Result Z :=
  if off <? 0 then Err RangeError
  else match slice buffer off (off + 2) with
       | [b0; b1] => Ok (byte_to_Z b0 + 256 * byte_to_Z b1)
       | _ => Err RangeError
       end.

(** [view.getUint32(off, true)]. *)
Definition getUint32 (buffer : list byte) (off : Z) : Result Z :=
  if off <? 0 then Err RangeError
  else match slice buffer off (off + 4) with
       | [b0; b1; b2; b3] =>
           Ok (byte_to_Z b0 + 256 * byte_to_Z b1
               + 65536 * byte_to_Z b2 + 16777216 * byte_to_Z b3)
       | _ => Err RangeError
       end.

(** ** JavaScript strings *)

(** A string is the sequence of its UTF-16 code units. *)
Definition jsstring : Type := list N.

Definition js (s : string) : jsstring :=
  map N_of_ascii (list_ascii_of_string s).

Fixpoint units_eqb (a b : jsstring) : bool :=
  match a, b with
  | [], [] => true
  | x :: a', y :: b' => N.eqb x y && units_eqb a' b'
  | _, _ => false
  end.

(** [s.endsWith(suffix)]. *)
Definition endsWith (s suffix : jsstring) : bool :=
  (List.length suffix <=? List.length s)%nat
  && units_eqb (skipn (List.length s - List.length suffix) s) suffix.

(** *** [new TextDecoder().decode(bytes)]

    The UTF-8 decoder of the Encoding standard, in replacement mode (the
    default, [fatal: false]) and with the byte-order mark removed (the
    default, [ignoreBOM: false]). *)

Record Utf8State : Type := {
  u8_code_point : N;
  u8_bytes_seen : N;
  u8_bytes_needed : N;
  u8_lower : N;
  u8_upper : N
}.

Inductive Utf8Step : Type :=
| U8Continue (s : Utf8State)
| U8Emit (code_point : N)
| U8Error.

(** The decoder's handler when no bytes are needed (a lead byte). *)
Definition utf8_lead (b : N) : Utf8Step :=
  (if b <=? 0x7F then U8Emit b
   else if (0xC2 <=? b) && (b <=? 0xDF) then
     U8Continue {| u8_code_point := N.land b 0x1F; u8_bytes_seen := 0;
                   u8_bytes_needed := 1; u8_lower := 0x80; u8_upper := 0xBF |}
   else if (0xE0 <=? b) && (b <=? 0xEF) then
     U8Continue {| u8_code_point := N.land b 0xF; u8_bytes_seen := 0;
                   u8_bytes_needed := 2;
                   u8_lower := if b =? 0xE0 then 0xA0 else 0x80;
                   u8_upper := if b =? 0xED then 0x9F else 0xBF |}
   else if (0xF0 <=? b) && (b <=? 0xF4) then
     U8Continue {| u8_code_point := N.land b 0x7; u8_bytes_seen := 0;
                   u8_bytes_needed := 3;
                   u8_lower := if b =? 0xF0 then 0x90 else 0x80;
                   u8_upper := if b =? 0xF4 then 0x8F else 0xBF |}
   else U8Error)%N.

(** The handler on a byte inside the bounds, when bytes are needed. *)
Definition utf8_trail (s : Utf8State) (b : N) : Utf8Step :=
  (let cp := N.lor (N.shiftl (u8_code_point s) 6) (N.land b 0x3F) in
   let seen := u8_bytes_seen s + 1 in
   if seen =? u8_bytes_needed s then U8Emit cp
   else U8Continue {| u8_code_point := cp; u8_bytes_seen := seen;
                      u8_bytes_needed := u8_bytes_needed s;
                      u8_lower := 0x80; u8_upper := 0xBF |})%N.

(** Runs the decoder; [None] is the state with no bytes needed.  A byte
    outside the bounds is an error and is processed again as a lead byte;
    an error emits U+FFFD. *)
Fixpoint utf8_decode (s : option Utf8State) (bytes : list N) : list N :=
  let after (r : Utf8Step) (rest : list N) : list N :=
    match r with
    | U8Emit c => c :: utf8_decode None rest
    | U8Continue s' => utf8_decode (Some s') rest
    | U8Error => 0xFFFD%N :: utf8_decode None rest
    end in
  match bytes with
  | [] => match s with
          | None => []
          | Some _ => [0xFFFD%N]
          end
  | b :: rest =>
      match s with
      | None => after (utf8_lead b) rest
      | Some st =>
          if ((u8_lower st <=? b) && (b <=? u8_upper st))%N
          then after (utf8_trail st b) rest
          else 0xFFFD%N :: after (utf8_lead b) rest
      end
  end.

(** A scalar value as UTF-16 code units. *)
Definition utf16_units (cp : N) : list N :=
  (if cp <? 0x10000 then [cp]
   else let c := cp - 0x10000 in
        [0xD800 + N.shiftr c 10; 0xDC00 + N.land c 0x3FF])%N.

Definition strip_bom (cps : list N) : list N :=
  match cps with
  | c :: rest => if (c =? 0xFEFF)%N then rest else cps
  | [] => []
  end.

Definition TextDecoder_decode (bytes : list byte) : jsstring :=
  flat_map utf16_units (strip_bom (utf8_decode None (map Byte.to_N bytes))).

(** *** [parseInt(s, 10)]

    The argument is an HTTP header value, whose code units are below 256.
    White space is skipped, then an optional sign, then the longest run of
    decimal digits; no digit gives [NaN]. *)

Definition is_js_space (c : ascii) : bool :=
  let n := N_of_ascii c in
  ((9 <=? n) && (n <=? 13) || (n =? 32) || (n =? 160))%N.

Fixpoint skip_spaces (s : string) : string :=
  match s with
  | String c s' => if is_js_space c then skip_spaces s' else s
  | EmptyString => s
  end.

Definition digit_value (c : ascii) : option Z :=
  let n := N_of_ascii c in
  if ((48 <=? n) && (n <=? 57))%N then Some (Z.of_N n - 48) else None.

(** Value of the longest prefix of digits, [acc] being the value read so
    far and [seen] whether a digit has been read. *)
Fixpoint parse_digits (s : string) (acc : Z) (seen : bool) : option Z :=
  match s with
  | String c s' =>
      match digit_value c with
      | Some d => parse_digits s' (10 * acc + d) true
      | None => if seen then Some acc else None
      end
  | EmptyString => if seen then Some acc else None
  end.

Definition parseInt10 (s : string) : jsnum :=
  let t := skip_spaces s in
  let '(sign, digits) :=
    match t with
    | String "-"%char t' => (-1, t')
    | String "+"%char t' => (1, t')
    | _ => (1, t)
    end in
  match parse_digits digits 0 false with
  | Some v => Num (sign * v)
  | None => NaN
  end.

(** ** Data model *)

(** The [EOCD] type of the source. *)
Record EOCD : Type := {
  diskNumber : jsnum;
  centralDirDisk : jsnum;
  diskEntryCount : jsnum;
  totalEntryCount : jsnum;
  centralDirSize : jsnum;
  centralDirOffset : jsnum;
  commentLength : jsnum;
  absoluteOffset : jsnum
}.

(** The [FileEntry] type of the source.  The decoder leaves
    [fileNameLength], [extraFieldLength] and [dataOffset] out of the object
    it builds ([None]: the property is [undefined]). *)
Record FileEntry : Type := {
  fileName : jsstring;
  compressedSize : jsnum;
  uncompressedSize : jsnum;
  fileNameLength : option jsnum;
  localHeaderOffset : jsnum;
  extraFieldLength : option jsnum;
  dataOffset : option jsnum;
  isDirectory : bool;
  isImage : option bool
}.

(** What [extractFile] returns: [new Blob([buffer], { type })]; a blob built
    without options has the empty type. *)
Record Blob : Type := {
  blob_bytes : list byte;
  blob_type : string
}.

(** The fields of the [ZipReader] object. *)
Record ZipReader : Type := {
  url : string;
  fileSize : jsnum
}.

(** [new ZipReader(url)]. *)
Definition new_ZipReader (u : string) : ZipReader :=
  {| url := u; fileSize := Num 0 |}.

(** ** The host: HTTP and string primitives *)

Inductive Request : Type :=
| Head (u : string)                          (* fetch(url, { method: 'HEAD' }) *)
| GetRange (u : string) (start end_ : jsnum). (* Range: bytes=start-end *)

Record Response : Type := {
  resp_ok : bool;                       (* response.ok *)
  resp_status : Z;                      (* response.status *)
  resp_content_length : option string;  (* headers.get('content-length') *)
  resp_body : option (list byte)        (* arrayBuffer(); None: it rejects *)
}.

(** [fetch] answers a request from the state of the network and moves that
    state; [None] is a rejected promise.  [toLowerCase] is the lower-casing
    of the runtime. *)
Class Host (W : Type) : Type := {
  fetch : Request -> W -> option Response * W;
  toLowerCase : jsstring -> jsstring
}.

(** ** The monad of the methods *)

Record St (W : Type) : Type := {
  this : ZipReader;
  world : W;
  trace : list Request
}.
Arguments this {W} _.
Arguments world {W} _.
Arguments trace {W} _.

Definition M (W A : Type) : Type := St W -> Result A * St W.

Definition ret {W A} (a : A) : M W A := fun st => (Ok a, st).

Definition throw {W A} (e : JsError) : M W A := fun st => (Err e, st).

Definition bind {W A B} (m : M W A) (k : A -> M W B) : M W B :=
  fun st =>
    match m st with
    | (Ok a, st') => k a st'
    | (Err e, st') => (Err e, st')
    end.

Notation "'do' x '<-' m ';' k" := (bind m (fun x => k))
  (at level 10, x name, m at level 100, k at level 200).

Definition lift {W A} (r : Result A) : M W A := fun st => (r, st).

Definition get_this {W} : M W ZipReader := fun st => (Ok (this st), st).

(** [this.fileSize = n]. *)
Definition set_fileSize {W} (n : jsnum) : M W unit :=
  fun st =>
    (Ok tt, {| this := {| url := url (this st); fileSize := n |};
               world := world st; trace := trace st |}).

(** [await fetch(...)]: the request is recorded, the network moves. *)
Definition http {W} `{Host W} (req : Request) : M W Response :=
  fun st =>
    let '(r, w) := fetch req (world st) in
    let st' := {| this := this st; world := w; trace := trace st ++ [req] |} in
    match r with
    | Some resp => (Ok resp, st')
    | None => (Err FetchFailed, st')
    end.

(** Number of range reads in a trace. *)
Definition is_range_read (r : Request) : bool :=
  match r with
  | GetRange _ _ _ => true
  | Head _ => false
  end.

Definition range_reads (t : list Request) : nat :=
  List.length (filter is_range_read t).

(** ** The methods of [ZipReader] *)

Section Methods.
Context {W : Type} `{Host W}.

(** [getFileSize()].  The [catch] clause logs and rethrows, which changes
    nothing here. *)
Definition getFileSize : M W jsnum :=
  do r <- get_this;
  do response <- http (Head (url r));
  if negb (resp_ok response) then throw (HttpError (resp_status response))
  else
    match resp_content_length response with
    | None => throw NoContentLength
    | Some EmptyString => throw NoContentLength
    | Some contentLength =>
        do _ <- set_fileSize (parseInt10 contentLength);
        do r' <- get_this;
        ret (fileSize r')
    end.

(** [fetchRange(start, end)]. *)
Definition fetchRange (start end_ : jsnum) : M W (list byte) :=
  do r <- get_this;
  do response <- http (GetRange (url r) start end_);
  if negb (resp_ok response) then throw (HttpError (resp_status response))
  else
    match resp_body response with
    | Some buffer => ret buffer
    | None => throw BodyFailed
    end.

(** [parseEOCD(buffer)]. *)
Definition parseEOCD (buffer : list byte) : Result EOCD :=
  let? signature := getUint32 buffer 0 in
  if negb (signature =? 0x06054b50) then Err InvalidEOCDSignature
  else
    let? f4 := getUint16 buffer 4 in
    let? f6 := getUint16 buffer 6 in
    let? f8 := getUint16 buffer 8 in
    let? f10 := getUint16 buffer 10 in
    let? f12 := getUint32 buffer 12 in
    let? f16 := getUint32 buffer 16 in
    let? f20 := getUint16 buffer 20 in
    Ok {| diskNumber := Num f4;
          centralDirDisk := Num f6;
          diskEntryCount := Num f8;
          totalEntryCount := Num f10;
          centralDirSize := Num f12;
          centralDirOffset := Num f16;
          commentLength := Num f20;
          absoluteOffset := Num 0 |}.

(** [bytes[i] === b]; an index outside the array reads [undefined]. *)
Definition byte_is (bytes : list byte) (i : nat) (b : byte) : bool :=
  match nth_error bytes i with
  | Some c => Byte.eqb c b
  | None => false
  end.

(** The test of the search loop of [findEOCD] at index [i]. *)
Definition eocd_signature_at (bytes : list byte) (i : nat) : bool :=
  byte_is bytes i x50 && byte_is bytes (i + 1) x4b
  && byte_is bytes (i + 2) x05 && byte_is bytes (i + 3) x06.

Definition with_absoluteOffset (e : EOCD) (a : jsnum) : EOCD :=
  {| diskNumber := diskNumber e;
     centralDirDisk := centralDirDisk e;
     diskEntryCount := diskEntryCount e;
     totalEntryCount := totalEntryCount e;
     centralDirSize := centralDirSize e;
     centralDirOffset := centralDirOffset e;
     commentLength := commentLength e;
     absoluteOffset := a |}.

(** The loop [for (let i = bytes.length - 22; i >= 0; i--)] of
    [findEOCD], with [k = i + 1] iterations left; falling out of the loop
    throws. *)
Fixpoint findEOCD_scan (buffer : list byte) (startPos : jsnum) (k : nat)
  : Result EOCD :=
  match k with
  | O => Err EOCDNotFound
  | S i =>
      if eocd_signature_at buffer i then
        let eocdBuffer := slice buffer (Z.of_nat i) (Z.of_nat i + 22) in
        let? eocd := parseEOCD eocdBuffer in
        Ok (with_absoluteOffset eocd (startPos + Num (Z.of_nat i))%js)
      else findEOCD_scan buffer startPos i
  end.

(** The body of [findEOCD] once the size is known: the trailing window is
    fetched and searched. *)
Definition findEOCD_search : M W EOCD :=
  do r <- get_this;
  let maxCommentLength := Num 65535 in
  let bufferSize := Math_min (maxCommentLength + Num 22)%js (fileSize r) in
  let startPos := (fileSize r - bufferSize)%js in
  let endPos := (fileSize r - Num 1)%js in
  do buffer <- fetchRange startPos endPos;
  lift (findEOCD_scan buffer startPos
          (Z.to_nat (Z.of_nat (List.length buffer) - 22 + 1))).

(** [findEOCD()]: the size is asked for when [this.fileSize] is falsy. *)
Definition findEOCD : M W EOCD :=
  do r0 <- get_this;
  do _ <- (if falsy (fileSize r0)
           then do _ <- getFileSize; ret tt
           else ret tt);
  findEOCD_search.

(** [parseCentralDirEntry(buffer, offset)]: the entry and [nextOffset]. *)
Definition parseCentralDirEntry (buffer : list byte) (offset : Z)
  : Result (FileEntry * Z) :=
  let? signature := getUint32 buffer offset in
  if negb (signature =? 0x02014b50) then Err InvalidCentralDirSignature
  else
    let? fileNameLength := getUint16 buffer (offset + 28) in
    let? extraFieldLength := getUint16 buffer (offset + 30) in
    let? commentLength := getUint16 buffer (offset + 32) in
    let fileNameBytes :=
      slice buffer (offset + 46) (offset + 46 + fileNameLength) in
    let fileName := TextDecoder_decode fileNameBytes in
    let? compressedSize := getUint32 buffer (offset + 20) in
    let? uncompressedSize := getUint32 buffer (offset + 24) in
    let? localHeaderOffset := getUint32 buffer (offset + 42) in
    let entrySize := 46 + fileNameLength + extraFieldLength + commentLength in
    let isDirectory := endsWith fileName (js "/") in
    let isImage :=
      negb isDirectory
      && (endsWith (toLowerCase fileName) (js ".jpg")
          || endsWith (toLowerCase fileName) (js ".jpeg")
          || endsWith (toLowerCase fileName) (js ".png")) in
    Ok ({| fileName := fileName;
           compressedSize := Num compressedSize;
           uncompressedSize := Num uncompressedSize;
           fileNameLength := None;
           localHeaderOffset := Num localHeaderOffset;
           extraFieldLength := None;
           dataOffset := None;
           isDirectory := isDirectory;
           isImage := Some isImage |},
        offset + entrySize).

(** The loop of [readCentralDirectory], with [n] iterations left: an
    exception of [parseCentralDirEntry], whatever it is, is caught and
    leaves the loop with the entries pushed so far. *)
Fixpoint readEntries (buffer : list byte) (n : nat) (offset : Z)
  : list FileEntry :=
  match n with
  | O => []
  | S n' =>
      match parseCentralDirEntry buffer offset with
      | Ok (entry, nextOffset) => entry :: readEntries buffer n' nextOffset
      | Err _ => []
      end
  end.

(** Iterations of [for (let i = 0; i < total; i++)]. *)
Definition iterations (total : jsnum) : nat :=
  match total with
  | Num z => Z.to_nat z
  | NaN => O
  end.

(** [readCentralDirectory(eocd)]. *)
Definition readCentralDirectory (eocd : EOCD) : M W (list FileEntry) :=
  let centralDirStart := centralDirOffset eocd in
  let centralDirEnd :=
    (centralDirStart + centralDirSize eocd - Num 1)%js in
  do buffer <- fetchRange centralDirStart centralDirEnd;
  ret (readEntries buffer (iterations (totalEntryCount eocd)) 0).

(** [calculateFileDataOffset(entry)].  Nothing in its [try] block can
    throw on a [FileEntry], so the [catch] clause is never entered; the
    function awaits nothing and touches neither the reader nor the
    network.  It updates the entry in place and returns it. *)
Definition calculateFileDataOffset (entry : FileEntry) : FileEntry :=
  let headerSize := Num 30 in
  let fileNameLength := Num (Z.of_nat (List.length (fileName entry))) in
  let extraFieldLength := Num 0 in
  let dataOffset :=
    (localHeaderOffset entry + headerSize + fileNameLength
     + extraFieldLength)%js in
  {| fileName := fileName entry;
     compressedSize := compressedSize entry;
     uncompressedSize := uncompressedSize entry;
     fileNameLength := Some fileNameLength;
     localHeaderOffset := localHeaderOffset entry;
     extraFieldLength := Some extraFieldLength;
     dataOffset := Some dataOffset;
     isDirectory := isDirectory entry;
     isImage := isImage entry |}.

(** The callback of [entries.map] in [readTableOfContents]. *)
Definition processEntry (entry : FileEntry) : FileEntry :=
  if isDirectory entry then entry else calculateFileDataOffset entry.

(** [readTableOfContents()].  [Promise.all] keeps the order of the array
    it is given, and the callbacks run to completion one after the other
    since [calculateFileDataOffset] awaits nothing. *)
Definition readTableOfContents : M W (list FileEntry) :=
  do eocd <- findEOCD;
  do entries <- readCentralDirectory eocd;
  let processedEntries := map processEntry entries in
  ret processedEntries.

(** [!entry.dataOffset]: [undefined], [0] and [NaN] are falsy. *)
Definition unresolved (entry : FileEntry) : bool :=
  match dataOffset entry with
  | None => true
  | Some d => falsy d
  end.

(** The entry object after the first statement of [extractFile]. *)
Definition resolveIfNeeded (entry : FileEntry) : FileEntry :=
  if unresolved entry then calculateFileDataOffset entry else entry.

(** A property read as a number; [undefined] reads as [NaN]. *)
Definition number_of (x : option jsnum) : jsnum :=
  match x with
  | Some n => n
  | None => NaN
  end.

Definition is_image_name (name : jsstring) : bool :=
  endsWith (toLowerCase name) (js ".jpg")
  || endsWith (toLowerCase name) (js ".jpeg")
  || endsWith (toLowerCase name) (js ".png").

(** [extractFile(entry)]: the blob, together with the entry object as the
    call leaves it. *)
Definition extractFile (entry : FileEntry) : M W (Blob * FileEntry) :=
  let entry' := resolveIfNeeded entry in
  let d := number_of (dataOffset entry') in
  do buffer <- fetchRange d (d + compressedSize entry' - Num 1)%js;
  if is_image_name (fileName entry') then
    ret ({| blob_bytes := buffer;
            blob_type :=
              if endsWith (toLowerCase (fileName entry')) (js ".png")
              then "image/png"%string else "image/jpeg"%string |},
         entry')
  else ret ({| blob_bytes := buffer; blob_type := EmptyString |}, entry').

End Methods.

(** ** The page that uses the reader ([src/routes/+page.svelte]) *)

Section PageModel.
Context {W : Type} `{Host W}.

(** The state variables of the page that [getSzi] assigns after it has
    reset them: [entries], [fileSize], and the exception that ends the
    handler early, if any. *)
Record Page : Type := {
  pg_entries : list FileEntry;
  pg_fileSize : jsnum;
  pg_error : option JsError
}.

(** [getSzi]: the variables are reset ([entries = []], [fileSize = 0]), a
    reader is built for the address typed, the size is asked for, then the
    table of contents.  An exception leaves the variables assigned so far. *)
Definition getSzi (sziUrl : string) (w : W) : Page * St W :=
  let reader := {| this := new_ZipReader sziUrl; world := w; trace := [] |} in
  match getFileSize reader with
  | (Err x, st1) =>
      ({| pg_entries := []; pg_fileSize := Num 0; pg_error := Some x |}, st1)
  | (Ok fileSize, st1) =>
      match readTableOfContents st1 with
      | (Err x, st2) =>
          ({| pg_entries := []; pg_fileSize := fileSize;
              pg_error := Some x |}, st2)
      | (Ok entries, st2) =>
          ({| pg_entries := entries; pg_fileSize := fileSize;
              pg_error := None |}, st2)
      end
  end.

(** The button that the table shows for an entry:
    [{#if entry.isImage} ... {:else if !entry.isDirectory} ... {/if}]. *)
Inductive Action : Type :=
| ShowImage        (* calls showImage(entry), which extracts the entry *)
| LogContents      (* calls logContents(entry), which extracts the entry *)
| NoAction.

Definition entry_action (entry : FileEntry) : Action :=
  match isImage entry with
  | Some true => ShowImage
  | _ => if negb (isDirectory entry) then LogContents else NoAction
  end.

End PageModel.

(* ================================================================== *)
(** * Part II. The archive format and a static file server *)
(* ================================================================== *)

(** The definitions of this part do not come from the reader: they describe
    its inputs (the ZIP layout of the design document, section 6, and an
    HTTP server of a fixed file), so that the behaviour of the reader on a
    well-formed archive can be stated. *)

(** ** Little-endian fields *)

Definition byte_of_Z (z : Z) : byte :=
  match Byte.of_N (Z.to_N (z mod 256)) with
  | Some b => b
  | None => x00
  end.

Definition le16 (v : Z) : list byte :=
  [byte_of_Z v; byte_of_Z (v / 256)].

Definition le32 (v : Z) : list byte :=
  [byte_of_Z v; byte_of_Z (v / 256);
   byte_of_Z (v / 65536); byte_of_Z (v / 16777216)].

Definition len {A} (l : list A) : Z := Z.of_nat (List.length l).

(** ** Central directory file header *)

Record CDRecord : Type := {
  cd_versionMadeBy : Z;
  cd_versionNeeded : Z;
  cd_flags : Z;
  cd_method : Z;
  cd_time : Z;
  cd_date : Z;
  cd_crc32 : Z;
  cd_compressedSize : Z;
  cd_uncompressedSize : Z;
  cd_diskStart : Z;
  cd_internalAttrs : Z;
  cd_externalAttrs : Z;
  cd_localHeaderOffset : Z;
  cd_name : list byte;
  cd_extra : list byte;
  cd_comment : list byte
}.

(** Signature [50 4B 01 02], 46 fixed bytes, then name, extra field and
    comment. *)
Definition encodeCDRecord (r : CDRecord) : list byte :=
  [x50; x4b; x01; x02]
  ++ le16 (cd_versionMadeBy r) ++ le16 (cd_versionNeeded r)
  ++ le16 (cd_flags r) ++ le16 (cd_method r)
  ++ le16 (cd_time r) ++ le16 (cd_date r)
  ++ le32 (cd_crc32 r)
  ++ le32 (cd_compressedSize r) ++ le32 (cd_uncompressedSize r)
  ++ le16 (len (cd_name r)) ++ le16 (len (cd_extra r))
  ++ le16 (len (cd_comment r))
  ++ le16 (cd_diskStart r) ++ le16 (cd_internalAttrs r)
  ++ le32 (cd_externalAttrs r)
  ++ le32 (cd_localHeaderOffset r)
  ++ cd_name r ++ cd_extra r ++ cd_comment r.

(** A header of a stored entry whose fields fit their widths. *)
Definition cd_wf (r : CDRecord) : Prop :=
  cd_method r = 0
  /\ cd_compressedSize r = cd_uncompressedSize r
  /\ 0 <= cd_compressedSize r < 2 ^ 32
  /\ 0 <= cd_localHeaderOffset r < 2 ^ 32
  /\ len (cd_name r) < 2 ^ 16
  /\ len (cd_extra r) < 2 ^ 16
  /\ len (cd_comment r) < 2 ^ 16.

(** ** Archive *)

(** An archive: the local headers and file data (which listing never
    reads), the central directory, and the end-of-central-directory record
    with its comment. *)
Record Archive : Type := {
  ar_body : list byte;
  ar_records : list CDRecord;
  ar_comment : list byte
}.

Definition central_directory (a : Archive) : list byte :=
  flat_map encodeCDRecord (ar_records a).

(** Signature [50 4B 05 06], disk numbers 0, the entry count twice, the
    size and the offset of the central directory, the comment length. *)
Definition encodeEOCD (a : Archive) : list byte :=
  [x50; x4b; x05; x06]
  ++ le16 0 ++ le16 0
  ++ le16 (len (ar_records a)) ++ le16 (len (ar_records a))
  ++ le32 (len (central_directory a))
  ++ le32 (len (ar_body a))
  ++ le16 (len (ar_comment a)).

Definition archive_bytes (a : Archive) : list byte :=
  ar_body a ++ central_directory a ++ encodeEOCD a ++ ar_comment a.




(** The signature occurs at index [i] of the window and 22 bytes remain
    from there: the occurrences that the search loop can see. *)
Definition full_occurrence (bytes : list byte) (i : nat) : Prop :=
  eocd_signature_at bytes i = true /\ (i + 22 <= List.length bytes)%nat.

(** ** The entry a header describes *)

Section Described.
Context {W : Type} `{Host W}.

(** The entry that the decoder is expected to build from a header. *)
Definition entry_of_record (r : CDRecord) : FileEntry :=
  let name := TextDecoder_decode (cd_name r) in
  let dir := endsWith name (js "/") in
  {| fileName := name;
     compressedSize := Num (cd_compressedSize r);
     uncompressedSize := Num (cd_uncompressedSize r);
     fileNameLength := None;
     localHeaderOffset := Num (cd_localHeaderOffset r);
     extraFieldLength := None;
     dataOffset := None;
     isDirectory := dir;
     isImage := Some (negb dir && is_image_name name) |}.

(** [decodes buffer o es o']: starting at offset [o], the decoder reads
    the entries [es] one after the other and stops at offset [o']. *)
Inductive decodes (buffer : list byte) : Z -> list FileEntry -> Z -> Prop :=
| decodes_nil (o : Z) : decodes buffer o [] o
| decodes_cons (o : Z) (e : FileEntry) (o' : Z)
               (es : list FileEntry) (o'' : Z) :
    parseCentralDirEntry buffer o = Ok (e, o') ->
    decodes buffer o' es o'' ->
    decodes buffer o (e :: es) o''.

(** The size of the archive is known in [st1], reached from [st]: either
    the cached length is truthy and nothing happens, or it is falsy and a
    size query succeeds. *)
Definition size_known (st st1 : St W) : Prop :=
  (falsy (fileSize (this st)) = false /\ st1 = st)
  \/ (falsy (fileSize (this st)) = true
      /\ exists n, getFileSize st = (Ok n, st1)).

(** The listing expected of an archive: one entry per header, in the
    order of the central directory, the files with their data offset. *)
Definition expected_listing (a : Archive) : list FileEntry :=
  map (fun r => processEntry (entry_of_record r)) (ar_records a).
End Described.

(** The state in which a request leaves the reader. *)
Definition after_request {W : Type} `{Host W} (req : Request) (st : St W)
  : St W :=
  {| this := this st;
     world := snd (fetch req (world st));
     trace := trace st ++ [req] |}.

(** ** UTF-8 length of a string *)

Definition is_high_surrogate (c : N) : bool :=
  ((0xD800 <=? c) && (c <=? 0xDBFF))%N.

Definition is_low_surrogate (c : N) : bool :=
  ((0xDC00 <=? c) && (c <=? 0xDFFF))%N.

(** Number of bytes of the UTF-8 encoding of a string (what
    [new TextEncoder().encode(s).length] gives): a surrogate pair takes
    four bytes, a lone surrogate is encoded as U+FFFD. *)
Fixpoint utf8_byte_length (s : jsstring) : Z :=
  match s with
  | [] => 0
  | c :: rest =>
      if (c <? 0x80)%N then 1 + utf8_byte_length rest
      else if (c <? 0x800)%N then 2 + utf8_byte_length rest
      else if is_high_surrogate c then
        match rest with
        | d :: rest' =>
            if is_low_surrogate d then 4 + utf8_byte_length rest'
            else 3 + utf8_byte_length rest
        | [] => 3
        end
      else 3 + utf8_byte_length rest
  end.

(** ** A static file server *)

(** The answer of a server of the file [data] to [Range: bytes=start-end]
    (RFC 9110, section 14): a satisfiable range gives 206 with the bytes
    [start .. min(end, length - 1)]; a first position at or past the end of
    the file gives 416; a range that is not well formed (last position
    before the first, or not a number) is ignored and the whole file is
    sent with 200. *)
Definition static_range (data : list byte) (start end_ : jsnum) : Response :=
  let whole := {| resp_ok := true; resp_status := 200;
                  resp_content_length := None; resp_body := Some data |} in
  match start, end_ with
  | Num s, Num e =>
      if (0 <=? s) && (s <=? e) then
        if s <? len data then
          {| resp_ok := true; resp_status := 206;
             resp_content_length := None;
             resp_body := Some (slice data s (e + 1)) |}
        else
          {| resp_ok := false; resp_status := 416;
             resp_content_length := None; resp_body := Some [] |}
      else whole
  | _, _ => whole
  end.

(** A host serves [data] when it answers every [HEAD] with success and the
    exact length, and every range request as [static_range] does. *)
Definition serves {W : Type} `{Host W} (data : list byte) : Prop :=
  (forall u w, exists resp s,
      fst (fetch (Head u) w) = Some resp
      /\ resp_ok resp = true
      /\ resp_content_length resp = Some s
      /\ s <> EmptyString
      /\ parseInt10 s = Num (len data))
  /\ (forall u start end_ w,
         fst (fetch (GetRange u start end_) w)
         = Some (static_range data start end_)).

(** ** Concrete hosts *)

(** Lower-casing of the letters A-Z, every other code unit kept: what
    [toLowerCase] does on a string of ASCII characters. *)
Definition ascii_toLowerCase (s : jsstring) : jsstring :=
  map (fun c => if ((65 <=? c) && (c <=? 90))%N then (c + 32)%N else c) s.

(** The static server of [data], which reports the length as the decimal
    string [length_header]. *)
Definition static_host (data : list byte) (length_header : string)
  : Host unit :=
  {| fetch := fun req w =>
       match req with
       | Head _ =>
           (Some {| resp_ok := true; resp_status := 200;
                    resp_content_length := Some length_header;
                    resp_body := Some [] |}, w)
       | GetRange _ start end_ => (Some (static_range data start end_), w)
       end;
     toLowerCase := ascii_toLowerCase |}.

(** A scripted network: the state is the list of the answers still to
    come, one per request; with none left the request fails. *)
Definition scripted_host : Host (list Response) :=
  {| fetch := fun _ w =>
       match w with
       | resp :: w' => (Some resp, w')
       | [] => (None, [])
       end;
     toLowerCase := ascii_toLowerCase |}.

Definition initial {W : Type} (u : string) (w : W) : St W :=
  {| this := new_ZipReader u; world := w; trace := [] |}.

(** Number of [HEAD] requests in a trace. *)
Definition head_requests (t : list Request) : nat :=
  List.length (filter (fun r => negb (is_range_read r)) t).

(** ** Local file headers with an extra field *)

(** The local file header of [r] carrying the extra field [extra]:
    signature [50 4B 03 04], 30 fixed bytes, the name, the extra field. *)
Definition encodeLocalHeaderWith (r : CDRecord) (extra : list byte)
  : list byte :=
  [x50; x4b; x03; x04]
  ++ le16 (cd_versionNeeded r) ++ le16 (cd_flags r) ++ le16 (cd_method r)
  ++ le16 (cd_time r) ++ le16 (cd_date r)
  ++ le32 (cd_crc32 r)
  ++ le32 (cd_compressedSize r) ++ le32 (cd_uncompressedSize r)
  ++ le16 (len (cd_name r)) ++ le16 (len extra)
  ++ cd_name r ++ extra.

(** The bytes of a name are all below 128. *)
Definition ascii_name (name : list byte) : Prop :=
  Forall (fun b => (Byte.to_N b < 0x80)%N) name.

(** ** Example archives *)

Definition ascii_bytes (s : string) : list byte :=
  map byte_of_ascii (list_ascii_of_string s).

(** The header of a stored entry of [size] bytes whose local header is at
    [lho]. *)
Definition stored_record (name : list byte) (size lho : Z) : CDRecord :=
  {| cd_versionMadeBy := 20; cd_versionNeeded := 20; cd_flags := 0;
     cd_method := 0; cd_time := 0; cd_date := 0; cd_crc32 := 0;
     cd_compressedSize := size; cd_uncompressedSize := size;
     cd_diskStart := 0; cd_internalAttrs := 0; cd_externalAttrs := 0;
     cd_localHeaderOffset := lho;
     cd_name := name; cd_extra := []; cd_comment := [] |}.

(** The local file header that goes with a central directory header:
    signature [50 4B 03 04], 30 fixed bytes, the name, no extra field. *)
Definition encodeLocalHeader (r : CDRecord) : list byte :=
  [x50; x4b; x03; x04]
  ++ le16 (cd_versionNeeded r) ++ le16 (cd_flags r) ++ le16 (cd_method r)
  ++ le16 (cd_time r) ++ le16 (cd_date r)
  ++ le32 (cd_crc32 r)
  ++ le32 (cd_compressedSize r) ++ le32 (cd_uncompressedSize r)
  ++ le16 (len (cd_name r)) ++ le16 0
  ++ cd_name r.

Definition example_dir : CDRecord := stored_record (ascii_bytes "t/") 0 0.

Definition example_file : CDRecord :=
  stored_record (ascii_bytes "t/a.PNG") 3 32.

(** A directory [t/] and a file [t/a.PNG] of three bytes: 72 bytes of
    local headers and data, 101 bytes of central directory, 22 bytes of
    end record; 195 bytes. *)
Definition example_archive : Archive :=
  {| ar_body := encodeLocalHeader example_dir
                ++ encodeLocalHeader example_file ++ [x01; x02; x03];
     ar_records := [example_dir; example_file];
     ar_comment := [] |}.

Definition example_host : Host unit :=
  static_host (archive_bytes example_archive) "195".

(** The same archive with the signature of its second header damaged. *)
Definition damaged_bytes : list byte :=
  ar_body example_archive
  ++ encodeCDRecord example_dir
  ++ (x00 :: tl (encodeCDRecord example_file))
  ++ encodeEOCD example_archive.

Definition damaged_host : Host unit := static_host damaged_bytes "195".

(** A file whose name, U+00E9 followed by [.jpg], takes six bytes in UTF-8
    and five UTF-16 code units; its four bytes of data start at 36. *)
Definition accent_file : CDRecord :=
  stored_record [xc3; xa9; x2e; x6a; x70; x67] 4 0.

Definition accent_archive : Archive :=
  {| ar_body := encodeLocalHeader accent_file ++ [x0a; x0b; x0c; x0d];
     ar_records := [accent_file];
     ar_comment := [] |}.

Definition accent_host : Host unit :=
  static_host (archive_bytes accent_archive) "114".




(** An empty archive whose comment is the four signature bytes, and 22
    zero bytes followed by the signature. *)
Definition signature_comment_archive : Archive :=
  {| ar_body := []; ar_records := []; ar_comment := [x50; x4b; x05; x06] |}.

Definition signature_comment_host : Host unit :=
  static_host (archive_bytes signature_comment_archive) "26".

Definition late_signature_bytes : list byte :=
  repeat x00 22 ++ [x50; x4b; x05; x06].

Definition late_signature_host : Host unit :=
  static_host late_signature_bytes "26".



(** A file [a.txt] of three bytes whose local header carries an extra
    field of two bytes: 40 bytes of local header and data, 51 bytes of
    central directory, 22 bytes of end record; 113 bytes. *)
Definition extra_field_file : CDRecord :=
  stored_record (ascii_bytes "a.txt") 3 0.

Definition extra_field_archive : Archive :=
  {| ar_body := encodeLocalHeaderWith extra_field_file [xaa; xbb]
                ++ [x01; x02; x03];
     ar_records := [extra_field_file];
     ar_comment := [] |}.

Definition extra_field_host : Host unit :=
  static_host (archive_bytes extra_field_archive) "113".

(** A file of two bytes, too short to hold an end record. *)
Definition short_host : Host unit := static_host [x50; x4b] "2".

(** The server of the example archive reporting a length that is not a
    number. *)
Definition unparsable_length_host : Host unit :=
  static_host (archive_bytes example_archive) "abc".

(** A successful answer to [HEAD] reporting [length_header]. *)
Definition head_response (length_header : string) : Response :=
  {| resp_ok := true; resp_status := 200;
     resp_content_length := Some length_header; resp_body := Some [] |}.

(* ================================================================== *)
(** * Part III. Properties *)
(* ================================================================== *)

(** ** Bytes, fields and slices *)

Lemma byte_to_Z_range (b : byte) : 0 <= byte_to_Z b < 256.
Proof.
  unfold byte_to_Z. pose proof (Byte.to_N_bounded b). lia.
Qed.

Lemma byte_to_of_Z (z : Z) : byte_to_Z (byte_of_Z z) = z mod 256.
Proof.
  unfold byte_to_Z, byte_of_Z.
  assert (Hm : 0 <= z mod 256 < 256) by (apply Z.mod_pos_bound; lia).
  destruct (Byte.of_N (Z.to_N (z mod 256))) as [b|] eqn:E.
  - apply Byte.to_of_N in E. rewrite E. lia.
  - apply Byte.of_N_None_iff in E. lia.
Qed.

Lemma len_app {A} (l1 l2 : list A) : len (l1 ++ l2) = len l1 + len l2.
Proof. unfold len. rewrite length_app. lia. Qed.

Lemma len_nonneg {A} (l : list A) : 0 <= len l.
Proof. unfold len. lia. Qed.

Lemma slice_app_skip {A} (pre l : list A) (a b : Z) :
  0 <= a ->
  slice (pre ++ l) (len pre + a) (len pre + b) = slice l a b.
Proof.
  intros Ha. unfold slice, len.
  replace (Z.of_nat (List.length pre) + b - (Z.of_nat (List.length pre) + a))
    with (b - a) by lia.
  replace (Z.to_nat (Z.of_nat (List.length pre) + a))
    with (Z.to_nat a + List.length pre)%nat by lia.
  rewrite <- skipn_skipn.
  rewrite skipn_app, skipn_all, Nat.sub_diag. reflexivity.
Qed.


Lemma slice_length_le {A} (l : list A) (a b : Z) :
  0 <= a <= b -> b <= len l -> len (slice l a b) = b - a.
Proof.
  intros Hab Hb. unfold slice, len in *.
  rewrite length_firstn, length_skipn. lia.
Qed.

Lemma getUint16_range (buffer : list byte) (off v : Z) :
  getUint16 buffer off = Ok v -> 0 <= v < 2 ^ 16.
Proof.
  unfold getUint16. destruct (off <? 0); [discriminate|].
  destruct (slice buffer off (off + 2)) as [|b0 [|b1 [|? ?]]]; try discriminate.
  intros Hv.
  assert (E : v = byte_to_Z b0 + 256 * byte_to_Z b1) by congruence.
  pose proof (byte_to_Z_range b0). pose proof (byte_to_Z_range b1). lia.
Qed.

Lemma getUint32_range (buffer : list byte) (off v : Z) :
  getUint32 buffer off = Ok v -> 0 <= v < 2 ^ 32.
Proof.
  unfold getUint32. destruct (off <? 0); [discriminate|].
  destruct (slice buffer off (off + 4)) as [|b0 [|b1 [|b2 [|b3 [|? ?]]]]];
    try discriminate.
  intros Hv.
  assert (E : v = byte_to_Z b0 + 256 * byte_to_Z b1
                  + 65536 * byte_to_Z b2 + 16777216 * byte_to_Z b3)
    by congruence.
  pose proof (byte_to_Z_range b0). pose proof (byte_to_Z_range b1).
  pose proof (byte_to_Z_range b2). pose proof (byte_to_Z_range b3). lia.
Qed.

Lemma u16_le16 (v : Z) :
  0 <= v < 2 ^ 16 ->
  byte_to_Z (byte_of_Z v) + 256 * byte_to_Z (byte_of_Z (v / 256)) = v.
Proof.
  intros Hv. rewrite !byte_to_of_Z.
  rewrite (Z.mod_small (v / 256) 256).
  - pose proof (Z.div_mod v 256). lia.
  - split; [apply Z.div_pos; lia | apply Z.div_lt_upper_bound; lia].
Qed.

Lemma u32_le32 (v : Z) :
  0 <= v < 2 ^ 32 ->
  byte_to_Z (byte_of_Z v) + 256 * byte_to_Z (byte_of_Z (v / 256))
  + 65536 * byte_to_Z (byte_of_Z (v / 65536))
  + 16777216 * byte_to_Z (byte_of_Z (v / 16777216)) = v.
Proof.
  intros Hv. rewrite !byte_to_of_Z.
  assert (H1 : v / 65536 = v / 256 / 256)
    by (rewrite Z.div_div by lia; reflexivity).
  assert (H2 : v / 16777216 = v / 256 / 256 / 256)
    by (rewrite !Z.div_div by lia; reflexivity).
  rewrite H1, H2.
  set (a := v / 256). set (b := a / 256). set (c := b / 256).
  assert (Hc : 0 <= c < 256).
  { subst c b a. split.
    - repeat (apply Z.div_pos; [|lia]). lia.
    - repeat (apply Z.div_lt_upper_bound; [lia|]). lia. }
  rewrite (Z.mod_small c 256) by lia.
  pose proof (Z.div_mod v 256). pose proof (Z.div_mod a 256).
  pose proof (Z.div_mod b 256). subst c b a. lia.
Qed.

(** ** Strings *)

Lemma units_eqb_eq (a b : jsstring) : units_eqb a b = true <-> a = b.
Proof.
  revert b. induction a as [|x a IH]; intros [|y b]; cbn;
    try (split; [discriminate | congruence]).
  - split; reflexivity.
  - rewrite andb_true_iff, N.eqb_eq, IH. split.
    + intros [-> ->]. reflexivity.
    + intros [= -> ->]. split; reflexivity.
Qed.

(** [endsWith] holds exactly of the strings made of a prefix and the
    suffix. *)
Lemma endsWith_spec (s suffix : jsstring) :
  endsWith s suffix = true <-> exists prefix, s = prefix ++ suffix.
Proof.
  unfold endsWith. rewrite andb_true_iff, Nat.leb_le, units_eqb_eq. split.
  - intros [_ Hs]. exists (firstn (List.length s - List.length suffix) s).
    transitivity (firstn (List.length s - List.length suffix) s
                  ++ skipn (List.length s - List.length suffix) s).
    + symmetry. apply firstn_skipn.
    + f_equal. exact Hs.
  - intros [p ->]. rewrite length_app. split; [lia|].
    replace (List.length p + List.length suffix - List.length suffix)%nat
      with (List.length p) by lia.
    rewrite skipn_app, skipn_all, Nat.sub_diag. reflexivity.
Qed.

Section Properties.
Context {W : Type} `{Host W}.

(** ** The central directory decoder *)

(** What a successful call of [parseCentralDirEntry] has read. *)
Lemma parseCentralDirEntry_inv (buffer : list byte) (offset : Z)
      (e : FileEntry) (next : Z) :
  parseCentralDirEntry buffer offset = Ok (e, next) ->
  exists fnl efl cl csz usz lho,
    getUint32 buffer offset = Ok 0x02014b50
    /\ getUint16 buffer (offset + 28) = Ok fnl
    /\ getUint16 buffer (offset + 30) = Ok efl
    /\ getUint16 buffer (offset + 32) = Ok cl
    /\ getUint32 buffer (offset + 20) = Ok csz
    /\ getUint32 buffer (offset + 24) = Ok usz
    /\ getUint32 buffer (offset + 42) = Ok lho
    /\ fileName e
       = TextDecoder_decode (slice buffer (offset + 46) (offset + 46 + fnl))
    /\ compressedSize e = Num csz
    /\ uncompressedSize e = Num usz
    /\ localHeaderOffset e = Num lho
    /\ fileNameLength e = None
    /\ extraFieldLength e = None
    /\ dataOffset e = None
    /\ isDirectory e = endsWith (fileName e) (js "/")
    /\ isImage e = Some (negb (isDirectory e) && is_image_name (fileName e))
    /\ next = offset + (46 + fnl + efl + cl).
Proof.
  unfold parseCentralDirEntry, res_bind.
  destruct (getUint32 buffer offset) as [sig|] eqn:Esig; [|discriminate].
  destruct (sig =? 0x02014b50) eqn:Etest; cbn [negb]; [|discriminate].
  apply Z.eqb_eq in Etest. subst sig.
  destruct (getUint16 buffer (offset + 28)) as [fnl|]; [|discriminate].
  destruct (getUint16 buffer (offset + 30)) as [efl|]; [|discriminate].
  destruct (getUint16 buffer (offset + 32)) as [cl|]; [|discriminate].
  destruct (getUint32 buffer (offset + 20)) as [csz|]; [|discriminate].
  destruct (getUint32 buffer (offset + 24)) as [usz|]; [|discriminate].
  destruct (getUint32 buffer (offset + 42)) as [lho|]; [|discriminate].
  intros Hok. exists fnl, efl, cl, csz, usz, lho.
  assert (He : e = fst (e, next)) by reflexivity.
  assert (Hn : next = snd (e, next)) by reflexivity.
  assert (Hp : forall (p q : FileEntry * Z), Ok p = Ok q -> p = q)
    by (intros p q Hpq; congruence).
  apply Hp in Hok. rewrite <- Hok in He, Hn. cbn [fst snd] in He, Hn.
  subst e. cbn [fileName compressedSize uncompressedSize localHeaderOffset
                fileNameLength extraFieldLength dataOffset isDirectory
                isImage].
  repeat split; auto.
Qed.

(** C8.  The decoder marks an entry as a directory exactly when its name
    ends with the path separator, and as an image exactly when it is not
    a directory and its lower-cased name ends with .jpg, .jpeg or .png. *)
Theorem parseCentralDirEntry_classifies
        (buffer : list byte) (offset : Z) (e : FileEntry) (next : Z) :
  parseCentralDirEntry buffer offset = Ok (e, next) ->
  (isDirectory e = true <-> exists p, fileName e = p ++ js "/")
  /\ (isImage e = Some true
      <-> isDirectory e = false
          /\ ((exists p, toLowerCase (fileName e) = p ++ js ".jpg")
              \/ (exists p, toLowerCase (fileName e) = p ++ js ".jpeg")
              \/ (exists p, toLowerCase (fileName e) = p ++ js ".png")))
  /\ (isImage e = Some true \/ isImage e = Some false).
Proof.
  intros Hp. apply parseCentralDirEntry_inv in Hp.
  destruct Hp as (fnl & efl & cl & csz & usz & lho & _ & _ & _ & _ & _ & _
                  & _ & _ & _ & _ & _ & _ & _ & _ & Hdir & Himg & _).
  split; [|split].
  - rewrite Hdir. apply endsWith_spec.
  - rewrite Himg. unfold is_image_name.
    rewrite <- !endsWith_spec. split.
    + intros [= Hb]. apply andb_true_iff in Hb. destruct Hb as [Hd Hi].
      apply negb_true_iff in Hd. split; [exact Hd|].
      apply orb_true_iff in Hi. destruct Hi as [Hi|Hi]; [|auto].
      apply orb_true_iff in Hi. destruct Hi as [Hi|Hi]; auto.
    + intros [Hd Hi]. rewrite Hd. cbn [negb andb]. f_equal.
      destruct Hi as [Hi|[Hi|Hi]]; rewrite Hi;
        rewrite ?orb_true_r; reflexivity.
  - rewrite Himg.
    destruct (negb (isDirectory e) && is_image_name (fileName e)); auto.
Qed.

(** ** Offset resolution *)

Lemma calculateFileDataOffset_dataOffset (e : FileEntry) :
  dataOffset (calculateFileDataOffset e)
  = Some (localHeaderOffset e + Num 30
          + Num (Z.of_nat (List.length (fileName e))) + Num 0)%js.
Proof. reflexivity. Qed.

Lemma resolveIfNeeded_idempotent (e : FileEntry) :
  resolveIfNeeded (resolveIfNeeded e) = resolveIfNeeded e.
Proof.
  unfold resolveIfNeeded. destruct (unresolved e) eqn:Ee.
  - destruct (unresolved (calculateFileDataOffset e)); reflexivity.
  - rewrite Ee. reflexivity.
Qed.

(** C9.  Resolving an entry that is already resolved changes nothing, in
    particular not the data offset; resolution always produces an offset,
    and the offset depends on nothing but the local header offset and the
    name of the entry.  [calculateFileDataOffset] is a total function of
    the entry alone: it neither reads nor moves the reader or the
    network, so that an extraction behaves the same, request for request,
    whether or not the entry was resolved beforehand. *)
Theorem calculateFileDataOffset_idempotent (e : FileEntry) :
  calculateFileDataOffset (calculateFileDataOffset e)
  = calculateFileDataOffset e
  /\ dataOffset (calculateFileDataOffset (calculateFileDataOffset e))
     = dataOffset (calculateFileDataOffset e)
  /\ (exists d, dataOffset (calculateFileDataOffset e) = Some d)
  /\ (forall e',
         localHeaderOffset e' = localHeaderOffset e ->
         fileName e' = fileName e ->
         dataOffset (calculateFileDataOffset e')
         = dataOffset (calculateFileDataOffset e))
  /\ (forall st : St W,
         extractFile (resolveIfNeeded e) st = extractFile e st).
Proof.
  split; [reflexivity|]. split; [reflexivity|].
  split; [eexists; reflexivity|]. split.
  - intros e' Hl Hn. rewrite !calculateFileDataOffset_dataOffset, Hl, Hn.
    reflexivity.
  - intros st. unfold extractFile.
    rewrite resolveIfNeeded_idempotent. reflexivity.
Qed.


(** ** The range fetcher *)

Lemma fetchRange_unfold (start end_ : jsnum) (st : St W) :
  fetchRange start end_ st
  = let req := GetRange (url (this st)) start end_ in
    (match fst (fetch req (world st)) with
     | None => Err FetchFailed
     | Some resp =>
         if resp_ok resp then
           match resp_body resp with
           | Some buffer => Ok buffer
           | None => Err BodyFailed
           end
         else Err (HttpError (resp_status resp))
     end, after_request req st).
Proof.
  unfold fetchRange, bind, get_this, http, ret, throw, after_request.
  cbn zeta.
  destruct (fetch (GetRange (url (this st)) start end_) (world st))
    as [[resp|] w]; cbn [fst snd]; [|reflexivity].
  destruct (resp_ok resp); cbn [negb]; [|reflexivity].
  destruct (resp_body resp); reflexivity.
Qed.

Lemma getFileSize_unfold (st : St W) :
  getFileSize st
  = let req := Head (url (this st)) in
    let st1 := after_request req st in
    match fst (fetch req (world st)) with
    | None => (Err FetchFailed, st1)
    | Some resp =>
        if resp_ok resp then
          match resp_content_length resp with
          | None => (Err NoContentLength, st1)
          | Some EmptyString => (Err NoContentLength, st1)
          | Some s =>
              (Ok (parseInt10 s),
               {| this := {| url := url (this st);
                             fileSize := parseInt10 s |};
                  world := world st1; trace := trace st1 |})
          end
        else (Err (HttpError (resp_status resp)), st1)
    end.
Proof.
  unfold getFileSize, bind, get_this, http, ret, throw, set_fileSize,
    after_request.
  cbn zeta.
  destruct (fetch (Head (url (this st))) (world st)) as [[resp|] w];
    cbn [fst snd]; [|reflexivity].
  destruct (resp_ok resp); cbn [negb]; [|reflexivity].
  destruct (resp_content_length resp) as [[|c s]|]; reflexivity.
Qed.

Lemma fetchRange_state (start end_ : jsnum) (st : St W) :
  snd (fetchRange start end_ st)
  = after_request (GetRange (url (this st)) start end_) st.
Proof. rewrite fetchRange_unfold. reflexivity. Qed.

(** A request inside a served file is answered with exactly the bytes
    asked for. *)
Lemma static_range_inside (data : list byte) (s e : Z) :
  0 <= s <= e -> e < len data ->
  static_range data (Num s) (Num e)
  = {| resp_ok := true; resp_status := 206; resp_content_length := None;
       resp_body := Some (slice data s (e + 1)) |}.
Proof.
  intros Hse He. unfold static_range.
  replace ((0 <=? s) && (s <=? e)) with true
    by (symmetry; apply andb_true_iff; split; apply Z.leb_le; lia).
  replace (s <? len data) with true by (symmetry; apply Z.ltb_lt; lia).
  reflexivity.
Qed.

Lemma fetchRange_served (data : list byte) (s e : Z) (st : St W) :
  serves data -> 0 <= s <= e -> e < len data ->
  fetchRange (Num s) (Num e) st
  = (Ok (slice data s (e + 1)),
     after_request (GetRange (url (this st)) (Num s) (Num e)) st).
Proof.
  intros [_ Hget] Hse He. rewrite fetchRange_unfold. cbn zeta.
  rewrite Hget, static_range_inside by assumption. reflexivity.
Qed.

Lemma fetchRange_ok_iff (start end_ : jsnum) (st : St W)
      (buffer : list byte) :
  fst (fetchRange start end_ st) = Ok buffer
  <-> exists resp,
      fst (fetch (GetRange (url (this st)) start end_) (world st))
      = Some resp
      /\ resp_ok resp = true
      /\ resp_body resp = Some buffer.
Proof.
  rewrite fetchRange_unfold. cbn [fst].
  destruct (fst (fetch (GetRange (url (this st)) start end_) (world st)))
    as [resp|].
  - destruct (resp_ok resp) eqn:Eok.
    + destruct (resp_body resp) as [b|] eqn:Eb; split.
      * intros Hb. exists resp. repeat split; congruence.
      * intros (resp' & Hr & _ & Hb). congruence.
      * discriminate.
      * intros (resp' & Hr & _ & Hb). congruence.
    + split; [discriminate|].
      intros (resp' & Hr & Hok & _). congruence.
  - split; [discriminate|]. intros (resp' & Hr & _). discriminate.
Qed.

(** C2, as the code has it.  A range read fails exactly when the request
    fails, the status is not a success, or the body cannot be read;
    otherwise it returns the body of the response as it is, whatever its
    length.  The length is [end - start + 1] when the server sends the
    bytes asked for, as a server of a file does for a range inside the
    file. *)
Theorem fetchRange_returns_body (start end_ : jsnum) (st : St W) :
  (forall buffer,
      fst (fetchRange start end_ st) = Ok buffer
      <-> exists resp,
          fst (fetch (GetRange (url (this st)) start end_) (world st))
          = Some resp
          /\ resp_ok resp = true
          /\ resp_body resp = Some buffer)
  /\ (forall data s e,
         serves data -> start = Num s -> end_ = Num e ->
         0 <= s <= e -> e < len data ->
         exists buffer,
           fst (fetchRange start end_ st) = Ok buffer
           /\ buffer = slice data s (e + 1)
           /\ len buffer = e - s + 1).
Proof.
  split.
  - intros buffer. apply fetchRange_ok_iff.
  - intros data s e Hs -> -> Hse He.
    rewrite (fetchRange_served data) by assumption.
    exists (slice data s (e + 1)). repeat split.
    rewrite slice_length_le; lia.
Qed.

(** ** The extractor *)

Lemma extractFile_unfold (e : FileEntry) (st : St W) :
  extractFile e st
  = let e' := resolveIfNeeded e in
    let d := number_of (dataOffset e') in
    match fetchRange d (d + compressedSize e' - Num 1)%js st with
    | (Ok buffer, st') =>
        (Ok ({| blob_bytes := buffer;
                blob_type :=
                  if endsWith (toLowerCase (fileName e')) (js ".png")
                  then "image/png"%string
                  else if endsWith (toLowerCase (fileName e')) (js ".jpg")
                          || endsWith (toLowerCase (fileName e')) (js ".jpeg")
                       then "image/jpeg"%string
                       else EmptyString |}, e'), st')
    | (Err x, st') => (Err x, st')
    end.
Proof.
  unfold extractFile, bind, ret, is_image_name. cbn zeta.
  destruct (fetchRange _ _ st) as [[buffer|x] st']; [|reflexivity].
  destruct (endsWith (toLowerCase (fileName (resolveIfNeeded e))) (js ".jpg"));
    destruct (endsWith (toLowerCase (fileName (resolveIfNeeded e))) (js ".jpeg"));
    destruct (endsWith (toLowerCase (fileName (resolveIfNeeded e))) (js ".png"));
    reflexivity.
Qed.

(** C6, as the code has it.  Extracting a resolved entry issues exactly
    one request, the range read over
    [[dataOffset, dataOffset + compressedSize - 1]]; the blob holds the
    body of the response as it is, of kind image/png when the lower-cased
    name ends with .png, image/jpeg when it ends with .jpg or .jpeg, and
    of no kind otherwise; the entry is left as it was.  The blob has the
    recorded compressed size when that size is at least 1 and the range
    lies inside the file served. *)
Theorem extractFile_resolved (e : FileEntry) (d : jsnum) (st : St W) :
  dataOffset e = Some d -> falsy d = false ->
  let req :=
    GetRange (url (this st)) d (d + compressedSize e - Num 1)%js in
  snd (extractFile e st) = after_request req st
  /\ trace (snd (extractFile e st)) = trace st ++ [req]
  /\ (forall blob e',
         fst (extractFile e st) = Ok (blob, e') ->
         e' = e
         /\ (exists resp,
                fst (fetch req (world st)) = Some resp
                /\ resp_ok resp = true
                /\ resp_body resp = Some (blob_bytes blob))
         /\ blob_type blob
            = if endsWith (toLowerCase (fileName e)) (js ".png")
              then "image/png"%string
              else if endsWith (toLowerCase (fileName e)) (js ".jpg")
                      || endsWith (toLowerCase (fileName e)) (js ".jpeg")
                   then "image/jpeg"%string
                   else EmptyString)
  /\ (forall data dz c,
         serves data -> d = Num dz -> compressedSize e = Num c ->
         0 <= dz -> 1 <= c -> dz + c <= len data ->
         exists blob,
           fst (extractFile e st) = Ok (blob, e)
           /\ blob_bytes blob = slice data dz (dz + c)
           /\ len (blob_bytes blob) = c).
Proof.
  intros Hd Hf req.
  assert (Hres : resolveIfNeeded e = e).
  { unfold resolveIfNeeded, unresolved. rewrite Hd, Hf. reflexivity. }
  rewrite extractFile_unfold. cbn zeta. rewrite Hres, Hd.
  cbn [number_of]. fold req.
  pose proof (fetchRange_state d (d + compressedSize e - Num 1)%js st) as Hst.
  fold req in Hst.
  destruct (fetchRange d (d + compressedSize e - Num 1)%js st)
    as [r st'] eqn:Efr.
  cbn [snd] in Hst. subst st'.
  assert (Hsnd : snd (match r with
                      | Ok buffer =>
                          (Ok ({| blob_bytes := buffer;
                                  blob_type :=
                                    if endsWith (toLowerCase (fileName e)) (js ".png")
                                    then "image/png"%string
                                    else if endsWith (toLowerCase (fileName e)) (js ".jpg")
                                            || endsWith (toLowerCase (fileName e)) (js ".jpeg")
                                         then "image/jpeg"%string
                                         else EmptyString |}, e),
                           after_request req st)
                      | Err x => (Err x, after_request req st)
                      end) = after_request req st)
    by (destruct r; reflexivity).
  split; [exact Hsnd|]. split; [rewrite Hsnd; reflexivity|]. split.
  - intros blob e' Hok. destruct r as [buffer|x]; [|discriminate].
    cbn [fst] in Hok.
    assert (Hpair : ({| blob_bytes := buffer;
                        blob_type :=
                          if endsWith (toLowerCase (fileName e)) (js ".png")
                          then "image/png"%string
                          else if endsWith (toLowerCase (fileName e)) (js ".jpg")
                                  || endsWith (toLowerCase (fileName e)) (js ".jpeg")
                               then "image/jpeg"%string
                               else EmptyString |}, e) = (blob, e'))
      by congruence.
    assert (He : e' = e) by congruence.
    assert (Hb : blob = {| blob_bytes := buffer;
                           blob_type :=
                             if endsWith (toLowerCase (fileName e)) (js ".png")
                             then "image/png"%string
                             else if endsWith (toLowerCase (fileName e)) (js ".jpg")
                                     || endsWith (toLowerCase (fileName e)) (js ".jpeg")
                                  then "image/jpeg"%string
                                  else EmptyString |}) by congruence.
    split; [exact He|]. rewrite Hb. cbn [blob_bytes blob_type].
    split; [|reflexivity].
    apply (proj1 (fetchRange_ok_iff d (d + compressedSize e - Num 1)%js st buffer)).
    rewrite Efr. reflexivity.
  - intros data dz c Hs -> Hc Hdz Hc1 Hlen.
    rewrite Hc in Efr. cbn [num_add num_sub] in Efr.
    rewrite (fetchRange_served data) in Efr by (assumption || lia).
    assert (Hr : r = Ok (slice data dz (dz + c - 1 + 1))) by congruence.
    rewrite Hr. cbn [fst].
    replace (dz + c - 1 + 1) with (dz + c) by lia.
    eexists. split; [reflexivity|]. cbn [blob_bytes].
    split; [reflexivity|]. rewrite slice_length_le; lia.
Qed.

(** ** The cached length *)

Lemma findEOCD_search_unfold (st : St W) :
  findEOCD_search st
  = let n := fileSize (this st) in
    let startPos := (n - Math_min (Num 65557) n)%js in
    match fetchRange startPos (n - Num 1)%js st with
    | (Ok buffer, st') =>
        (findEOCD_scan buffer startPos (Z.to_nat (len buffer - 22 + 1)),
         st')
    | (Err x, st') => (Err x, st')
    end.
Proof. reflexivity. Qed.

Lemma findEOCD_unfold (st : St W) :
  findEOCD st
  = if falsy (fileSize (this st)) then
      match getFileSize st with
      | (Ok _, st1) => findEOCD_search st1
      | (Err x, st1) => (Err x, st1)
      end
    else findEOCD_search st.
Proof.
  unfold findEOCD, bind, get_this, ret.
  destruct (falsy (fileSize (this st))); [|reflexivity].
  destruct (getFileSize st) as [[n|x] st1]; reflexivity.
Qed.

Lemma readCentralDirectory_unfold (eocd : EOCD) (st : St W) :
  readCentralDirectory eocd st
  = match fetchRange (centralDirOffset eocd)
            (centralDirOffset eocd + centralDirSize eocd - Num 1)%js st with
    | (Ok buffer, st') =>
        (Ok (readEntries buffer (iterations (totalEntryCount eocd)) 0), st')
    | (Err x, st') => (Err x, st')
    end.
Proof. reflexivity. Qed.

Lemma readTableOfContents_unfold (st : St W) :
  readTableOfContents st
  = match findEOCD st with
    | (Ok eocd, st1) =>
        match readCentralDirectory eocd st1 with
        | (Ok entries, st2) => (Ok (map processEntry entries), st2)
        | (Err x, st2) => (Err x, st2)
        end
    | (Err x, st1) => (Err x, st1)
    end.
Proof.
  unfold readTableOfContents, bind, ret.
  destruct (findEOCD st) as [[eocd|x] st1]; [|reflexivity].
  destruct (readCentralDirectory eocd st1) as [[entries|x] st2]; reflexivity.
Qed.

Lemma fetchRange_this (start end_ : jsnum) (st : St W) :
  this (snd (fetchRange start end_ st)) = this st.
Proof. rewrite fetchRange_state. reflexivity. Qed.

Lemma readCentralDirectory_this (eocd : EOCD) (st : St W) :
  this (snd (readCentralDirectory eocd st)) = this st.
Proof.
  rewrite readCentralDirectory_unfold.
  pose proof (fetchRange_this (centralDirOffset eocd)
                (centralDirOffset eocd + centralDirSize eocd - Num 1)%js st)
    as Hf.
  destruct (fetchRange _ _ st) as [[buffer|x] st']; exact Hf.
Qed.

Lemma extractFile_this (e : FileEntry) (st : St W) :
  this (snd (extractFile e st)) = this st.
Proof.
  rewrite extractFile_unfold. cbn zeta.
  match goal with
  | |- context [fetchRange ?a ?b st] =>
      pose proof (fetchRange_this a b st) as Hf;
      destruct (fetchRange a b st) as [[buffer|x] st']
  end; exact Hf.
Qed.

Lemma findEOCD_search_this (st : St W) :
  this (snd (findEOCD_search st)) = this st.
Proof.
  rewrite findEOCD_search_unfold. cbn zeta.
  match goal with
  | |- context [fetchRange ?a ?b st] =>
      pose proof (fetchRange_this a b st) as Hf;
      destruct (fetchRange a b st) as [[buffer|x] st']
  end; exact Hf.
Qed.

Lemma getFileSize_result (st : St W) (n : jsnum) (st' : St W) :
  getFileSize st = (Ok n, st') ->
  fileSize (this st') = n
  /\ url (this st') = url (this st)
  /\ exists resp s,
      fst (fetch (Head (url (this st))) (world st)) = Some resp
      /\ resp_ok resp = true
      /\ resp_content_length resp = Some s
      /\ n = parseInt10 s.
Proof.
  rewrite getFileSize_unfold. cbn zeta.
  destruct (fst (fetch (Head (url (this st))) (world st))) as [resp|];
    [|discriminate].
  destruct (resp_ok resp) eqn:Eok; [|discriminate].
  destruct (resp_content_length resp) as [[|c s]|] eqn:Ecl;
    try discriminate.
  intros Hok.
  assert (Hn : n = parseInt10 (String c s)) by congruence.
  assert (Hs : st' = {| this := {| url := url (this st);
                                   fileSize := parseInt10 (String c s) |};
                        world := world (after_request (Head (url (this st))) st);
                        trace := trace (after_request (Head (url (this st))) st) |})
    by congruence.
  subst st' n. cbn [this fileSize url]. repeat split.
  exists resp, (String c s). repeat split; assumption.
Qed.

Lemma getFileSize_failure (st : St W) (x : JsError) (st' : St W) :
  getFileSize st = (Err x, st') -> this st' = this st.
Proof.
  rewrite getFileSize_unfold. cbn zeta.
  destruct (fst (fetch (Head (url (this st))) (world st))) as [resp|].
  - destruct (resp_ok resp).
    + destruct (resp_content_length resp) as [[|c s]|];
        try discriminate; intros Hx;
        assert (Hs : st' = after_request (Head (url (this st))) st)
          by congruence; subst st'; reflexivity.
    + intros Hx.
      assert (Hs : st' = after_request (Head (url (this st))) st)
        by congruence. subst st'. reflexivity.
  - intros Hx.
    assert (Hs : st' = after_request (Head (url (this st))) st)
      by congruence. subst st'. reflexivity.
Qed.

(** C7, as the code has it.  A size query that succeeds writes the
    length the server reports into the handle and returns it, whatever
    was cached before; a size query that fails, a range read, the
    directory decode and an extraction leave the handle as it is, and so
    do the search for the end-of-central-directory record and the listing
    when the cached length is neither zero nor [NaN]. *)
Theorem fileSize_written_by_size_query_only (st : St W) :
  (forall n st',
      getFileSize st = (Ok n, st') ->
      fileSize (this st') = n
      /\ exists resp s,
          fst (fetch (Head (url (this st))) (world st)) = Some resp
          /\ resp_content_length resp = Some s
          /\ n = parseInt10 s)
  /\ (forall x st', getFileSize st = (Err x, st') -> this st' = this st)
  /\ (forall start end_, this (snd (fetchRange start end_ st)) = this st)
  /\ (forall eocd, this (snd (readCentralDirectory eocd st)) = this st)
  /\ (forall e, this (snd (extractFile e st)) = this st)
  /\ (falsy (fileSize (this st)) = false ->
      this (snd (findEOCD st)) = this st
      /\ this (snd (readTableOfContents st)) = this st).
Proof.
  split; [|split; [|split; [|split; [|split]]]].
  - intros n st' Hg. apply getFileSize_result in Hg.
    destruct Hg as (Hn & _ & resp & s & Hr & _ & Hc & Hp).
    split; [exact Hn|]. exists resp, s. repeat split; assumption.
  - intros x st'. apply getFileSize_failure.
  - intros start end_. apply fetchRange_this.
  - intros eocd. apply readCentralDirectory_this.
  - intros e. apply extractFile_this.
  - intros Hf.
    assert (Hfind : this (snd (findEOCD st)) = this st)
      by (rewrite findEOCD_unfold, Hf; apply findEOCD_search_this).
    split; [exact Hfind|].
    rewrite readTableOfContents_unfold.
    destruct (findEOCD st) as [[eocd|x] st1]; cbn [snd] in Hfind;
      [|exact Hfind].
    pose proof (readCentralDirectory_this eocd st1) as Hr.
    destruct (readCentralDirectory eocd st1) as [[entries|x] st2];
      cbn [snd] in *; congruence.
Qed.

(** ** Partial success of the directory decode *)

Lemma readEntries_stops (buffer : list byte) (o o' : Z)
      (es : list FileEntry) (x : JsError) :
  decodes buffer o es o' ->
  parseCentralDirEntry buffer o' = Err x ->
  forall n, (List.length es < n)%nat -> readEntries buffer n o = es.
Proof.
  intros Hd Hx. induction Hd as [o|o e o1 es o2 Hp Hd IH]; intros n Hn.
  - destruct n as [|n]; [cbn in Hn; lia|]. cbn [readEntries].
    rewrite Hx. reflexivity.
  - destruct n as [|n]; [cbn in Hn; lia|]. cbn [readEntries].
    rewrite Hp. f_equal. apply IH; [exact Hx|]. cbn in Hn. lia.
Qed.


Lemma parseCentralDirEntry_bad_signature
      (buffer : list byte) (o sig : Z) :
  getUint32 buffer o = Ok sig -> sig <> 0x02014b50 ->
  parseCentralDirEntry buffer o = Err InvalidCentralDirSignature.
Proof.
  intros Hs Hne. unfold parseCentralDirEntry, res_bind. rewrite Hs.
  replace (sig =? 0x02014b50) with false
    by (symmetry; apply Z.eqb_neq; exact Hne).
  reflexivity.
Qed.

(** C3.  When the first [k - 1] entries of the directory decode and the
    [k]-th, within the announced count, fails its signature check, the
    directory decode returns exactly those [k - 1] entries, and the
    listing returns them (resolved) instead of failing. *)
Theorem readCentralDirectory_partial_success
        (st0 st1 st2 : St W) (eocd : EOCD) (buffer : list byte)
        (es : list FileEntry) (o total sig : Z) :
  findEOCD st0 = (Ok eocd, st1) ->
  fetchRange (centralDirOffset eocd)
    (centralDirOffset eocd + centralDirSize eocd - Num 1)%js st1
  = (Ok buffer, st2) ->
  totalEntryCount eocd = Num total ->
  decodes buffer 0 es o ->
  getUint32 buffer o = Ok sig -> sig <> 0x02014b50 ->
  len es + 1 <= total ->
  readCentralDirectory eocd st1 = (Ok es, st2)
  /\ readTableOfContents st0 = (Ok (map processEntry es), st2)
  /\ len (map processEntry es) = len es.
Proof.
  intros Hfind Hfetch Htotal Hdec Hsig Hne Hk.
  assert (Hrcd : readCentralDirectory eocd st1 = (Ok es, st2)).
  { rewrite readCentralDirectory_unfold, Hfetch, Htotal.
    cbn [iterations]. do 2 f_equal.
    apply (readEntries_stops buffer 0 o es InvalidCentralDirSignature).
    - exact Hdec.
    - apply (parseCentralDirEntry_bad_signature buffer o sig); assumption.
    - unfold len in Hk. lia. }
  split; [exact Hrcd|]. split.
  - rewrite readTableOfContents_unfold, Hfind, Hrcd. reflexivity.
  - unfold len. rewrite length_map. reflexivity.
Qed.

(** ** The search for the end-of-central-directory record *)

Lemma byte_is_true (bytes : list byte) (i : nat) (b : byte) :
  byte_is bytes i b = true <-> nth_error bytes i = Some b.
Proof.
  unfold byte_is. destruct (nth_error bytes i) as [c|]; split;
    try discriminate.
  - intros Hc. apply Byte.byte_dec_bl in Hc. congruence.
  - intros [= ->]. apply Byte.byte_dec_lb. reflexivity.
Qed.

Lemma eocd_signature_at_true (bytes : list byte) (i : nat) :
  eocd_signature_at bytes i = true
  <-> exists rest, skipn i bytes = x50 :: x4b :: x05 :: x06 :: rest.
Proof.
  unfold eocd_signature_at.
  rewrite !andb_true_iff, !byte_is_true.
  rewrite <- (Nat.add_0_r i) at 1.
  rewrite <- !nth_error_skipn.
  destruct (skipn i bytes) as [|b0 [|b1 [|b2 [|b3 rest]]]]; cbn; split;
    try (intros [[[? ?] ?] ?]; discriminate);
    try (intros [rest' ?]; discriminate).
  - intros [[[[= ->] [= ->]] [= ->]] [= ->]]. exists rest. reflexivity.
  - intros [rest' [= -> -> -> -> _]]. repeat split.
Qed.


Lemma slice_nat {A} (l : list A) (i n : nat) :
  slice l (Z.of_nat i) (Z.of_nat i + Z.of_nat n) = firstn n (skipn i l).
Proof.
  unfold slice.
  replace (Z.of_nat i + Z.of_nat n - Z.of_nat i) with (Z.of_nat n) by lia.
  rewrite !Nat2Z.id. reflexivity.
Qed.

(** A window that shows the signature at [i] with 22 bytes from there
    holds a record that [parseEOCD] accepts. *)
Lemma parseEOCD_at_signature (buffer : list byte) (i : nat) :
  full_occurrence buffer i ->
  exists eocd,
    parseEOCD (slice buffer (Z.of_nat i) (Z.of_nat i + 22)) = Ok eocd
    /\ len (slice buffer (Z.of_nat i) (Z.of_nat i + 22)) = 22.
Proof.
  intros [Hsig Hlen]. apply eocd_signature_at_true in Hsig.
  destruct Hsig as [rest Hrest].
  change 22 with (Z.of_nat 22). rewrite slice_nat.
  assert (Hl : List.length (skipn i buffer) = (List.length buffer - i)%nat)
    by apply length_skipn.
  rewrite Hrest in *. cbn [List.length] in Hl.
  do 18 (destruct rest as [|? rest]; [cbn [List.length] in Hl; lia|]).
  eexists. split; reflexivity.
Qed.

Lemma findEOCD_scan_spec (buffer : list byte) (startPos : jsnum) (k : nat) :
  (k + 21 <= List.length buffer)%nat \/ k = O ->
  (exists i eocd,
      (i < k)%nat
      /\ eocd_signature_at buffer i = true
      /\ (forall j, (i < j < k)%nat -> eocd_signature_at buffer j = false)
      /\ parseEOCD (slice buffer (Z.of_nat i) (Z.of_nat i + 22)) = Ok eocd
      /\ findEOCD_scan buffer startPos k
         = Ok (with_absoluteOffset eocd (startPos + Num (Z.of_nat i))%js))
  \/ ((forall j, (j < k)%nat -> eocd_signature_at buffer j = false)
      /\ findEOCD_scan buffer startPos k = Err EOCDNotFound).
Proof.
  induction k as [|i IH]; intros Hk.
  - right. split; [intros j Hj; lia | reflexivity].
  - cbn [findEOCD_scan].
    destruct (eocd_signature_at buffer i) eqn:Esig.
    + left.
      destruct (parseEOCD_at_signature buffer i) as (eocd & Hp & _).
      { split; [exact Esig | lia]. }
      exists i, eocd. rewrite Hp. cbn [res_bind].
      split; [lia|]. split; [exact Esig|].
      split; [intros j Hj; lia|]. split; reflexivity.
    + destruct IH as [(i' & eocd & Hi' & Hs & Hlater & Hp & Hscan)
                     |[Hnone Hscan]]; [lia| |].
      * left. exists i', eocd.
        split; [lia|]. split; [exact Hs|].
        split; [|split; assumption].
        intros j Hj. destruct (Nat.eq_dec j i) as [->|Hne];
          [exact Esig | apply Hlater; lia].
      * right. split; [|exact Hscan].
        intros j Hj. destruct (Nat.eq_dec j i) as [->|Hne];
          [exact Esig | apply Hnone; lia].
Qed.

(** The search of a window: the last occurrence from which 22 bytes
    remain, or [EOCDNotFound] if there is none. *)
Lemma findEOCD_scan_window (buffer : list byte) (startPos : jsnum) :
  let r := findEOCD_scan buffer startPos (Z.to_nat (len buffer - 22 + 1)) in
  (exists i eocd,
      full_occurrence buffer i
      /\ (forall j, full_occurrence buffer j -> (j <= i)%nat)
      /\ parseEOCD (slice buffer (Z.of_nat i) (Z.of_nat i + 22)) = Ok eocd
      /\ r = Ok (with_absoluteOffset eocd (startPos + Num (Z.of_nat i))%js))
  \/ ((forall i, ~ full_occurrence buffer i) /\ r = Err EOCDNotFound).
Proof.
  cbn zeta. unfold len.
  set (k := Z.to_nat (Z.of_nat (List.length buffer) - 22 + 1)).
  assert (Hk : (k + 21 <= List.length buffer)%nat \/ k = O) by lia.
  assert (Hfull : forall j, full_occurrence buffer j
                            <-> eocd_signature_at buffer j = true
                                /\ (j < k)%nat).
  { intros j. unfold full_occurrence. split; intros [Hs Hj];
      (split; [exact Hs | lia]). }
  destruct (findEOCD_scan_spec buffer startPos k Hk)
    as [(i & eocd & Hi & Hs & Hlater & Hp & Hscan)|[Hnone Hscan]].
  - left. exists i, eocd.
    split; [apply Hfull; split; assumption|].
    split; [|split; assumption].
    intros j Hj. apply Hfull in Hj. destruct Hj as [Hsj Hjk].
    destruct (Nat.le_gt_cases j i) as [Hle|Hgt]; [exact Hle|].
    rewrite Hlater in Hsj by lia. discriminate.
  - right. split; [|exact Hscan].
    intros i Hi. apply Hfull in Hi. destruct Hi as [Hs Hik].
    rewrite Hnone in Hs by exact Hik. discriminate.
Qed.

Lemma findEOCD_size_known (st st1 : St W) :
  size_known st st1 -> findEOCD st = findEOCD_search st1.
Proof.
  intros [[Hf ->]|[Hf [n Hg]]]; rewrite findEOCD_unfold, Hf;
    [reflexivity|]. rewrite Hg. reflexivity.
Qed.

Lemma slice_to_end {A} (l : list A) (s : Z) :
  0 <= s -> slice l s (len l - 1 + 1) = skipn (Z.to_nat s) l.
Proof.
  intros Hs. unfold slice, len.
  apply firstn_all2. rewrite length_skipn. lia.
Qed.

(** C5, as the code has it.  Once the size [n] is known, [findEOCD]
    issues exactly one request, the range read of the last
    [min(65557, n)] bytes; it searches the window it receives backward
    and returns the record decoded at the last occurrence of the
    signature from which 22 bytes remain in the window, with the absolute
    position of that occurrence; it fails with [EOCDNotFound] when the
    window has no such occurrence. *)
Theorem findEOCD_locates_last_full_record (st st1 : St W) :
  size_known st st1 ->
  let n := fileSize (this st1) in
  let startPos := (n - Math_min (Num 65557) n)%js in
  let req := GetRange (url (this st1)) startPos (n - Num 1)%js in
  snd (findEOCD st) = after_request req st1
  /\ (forall z, n = Num z ->
                req = GetRange (url (this st1))
                        (Num (z - Z.min 65557 z)) (Num (z - 1)))
  /\ (forall data,
         serves data -> n = Num (len data) -> 1 <= len data ->
         let window :=
           skipn (Z.to_nat (len data - Z.min 65557 (len data))) data in
         fst (fetchRange startPos (n - Num 1)%js st1) = Ok window
         /\ len window = Z.min 65557 (len data))
  /\ (forall buffer,
         fst (fetchRange startPos (n - Num 1)%js st1) = Ok buffer ->
         (exists i eocd,
             full_occurrence buffer i
             /\ (forall j, full_occurrence buffer j -> (j <= i)%nat)
             /\ parseEOCD (slice buffer (Z.of_nat i) (Z.of_nat i + 22))
                = Ok eocd
             /\ fst (findEOCD st)
                = Ok (with_absoluteOffset eocd
                        (startPos + Num (Z.of_nat i))%js))
         \/ ((forall i, ~ full_occurrence buffer i)
             /\ fst (findEOCD st) = Err EOCDNotFound)).
Proof.
  intros Hknown n startPos req.
  rewrite (findEOCD_size_known st st1 Hknown), findEOCD_search_unfold.
  cbn zeta. fold n. fold startPos.
  pose proof (fetchRange_state startPos (n - Num 1)%js st1) as Hst.
  fold req in Hst.
  destruct (fetchRange startPos (n - Num 1)%js st1) as [r st'] eqn:Efr.
  cbn [snd] in Hst. subst st'.
  split; [destruct r; reflexivity|].
  split.
  { intros z Hz. subst req startPos. rewrite Hz. reflexivity. }
  split.
  { intros data Hs Hn Hlen.
    set (window := skipn (Z.to_nat (len data - Z.min 65557 (len data))) data).
    assert (Hfr : fetchRange startPos (n - Num 1)%js st1
                  = (r, after_request req st1)) by exact Efr.
    subst startPos. rewrite Hn in Hfr. cbn [Math_min num_sub] in Hfr.
    rewrite (fetchRange_served data) in Hfr by (assumption || lia).
    rewrite slice_to_end in Hfr by lia.
    assert (Hr : r = Ok window) by (subst window; congruence).
    split; [rewrite Hr; reflexivity|].
    subst window. unfold len. rewrite length_skipn. unfold len in Hlen. lia. }
  intros buffer Hb. cbn [fst] in Hb. subst r. cbn [fst].
  apply findEOCD_scan_window.
Qed.

(** ** Listing a well-formed archive *)

Lemma getUint16_skip (pre l : list byte) (k : Z) :
  0 <= k -> getUint16 (pre ++ l) (len pre + k) = getUint16 l k.
Proof.
  intros Hk. unfold getUint16.
  pose proof (len_nonneg pre).
  replace (len pre + k <? 0) with false by (symmetry; apply Z.ltb_ge; lia).
  replace (k <? 0) with false by (symmetry; apply Z.ltb_ge; lia).
  rewrite <- Z.add_assoc, slice_app_skip by lia. reflexivity.
Qed.

Lemma getUint32_skip (pre l : list byte) (k : Z) :
  0 <= k -> getUint32 (pre ++ l) (len pre + k) = getUint32 l k.
Proof.
  intros Hk. unfold getUint32.
  pose proof (len_nonneg pre).
  replace (len pre + k <? 0) with false by (symmetry; apply Z.ltb_ge; lia).
  replace (k <? 0) with false by (symmetry; apply Z.ltb_ge; lia).
  rewrite <- Z.add_assoc, slice_app_skip by lia. reflexivity.
Qed.

(** Decoding does not depend on where the header lies in the buffer. *)
Lemma parseCentralDirEntry_skip (pre l : list byte) (k : Z) :
  0 <= k ->
  parseCentralDirEntry (pre ++ l) (len pre + k)
  = match parseCentralDirEntry l k with
    | Ok (e, next) => Ok (e, len pre + next)
    | Err x => Err x
    end.
Proof.
  intros Hk. unfold parseCentralDirEntry, res_bind.
  rewrite <- (Z.add_0_r (len pre + k)) at 1.
  rewrite <- !Z.add_assoc, Z.add_0_r.
  rewrite getUint32_skip by lia.
  destruct (getUint32 l k) as [sig|]; [|reflexivity].
  destruct (negb (sig =? 0x02014b50)); [reflexivity|].
  rewrite getUint16_skip by lia.
  destruct (getUint16 l (k + 28)) as [fnl|]; [|reflexivity].
  rewrite getUint16_skip by lia.
  destruct (getUint16 l (k + 30)) as [efl|]; [|reflexivity].
  rewrite getUint16_skip by lia.
  destruct (getUint16 l (k + 32)) as [cl|]; [|reflexivity].
  rewrite getUint32_skip by lia.
  destruct (getUint32 l (k + 20)) as [csz|]; [|reflexivity].
  rewrite getUint32_skip by lia.
  destruct (getUint32 l (k + 24)) as [usz|]; [|reflexivity].
  rewrite getUint32_skip by lia.
  destruct (getUint32 l (k + 42)) as [lho|]; [|reflexivity].
  rewrite <- !Z.add_assoc.
  rewrite !slice_app_skip by lia.
  reflexivity.
Qed.

Lemma getUint16_nat (l : list byte) (k : nat) :
  getUint16 l (Z.of_nat k)
  = match firstn 2 (skipn k l) with
    | [b0; b1] => Ok (byte_to_Z b0 + 256 * byte_to_Z b1)
    | _ => Err RangeError
    end.
Proof.
  unfold getUint16.
  replace (Z.of_nat k <? 0) with false by (symmetry; apply Z.ltb_ge; lia).
  change 2 with (Z.of_nat 2) at 1. rewrite slice_nat. reflexivity.
Qed.

Lemma getUint32_nat (l : list byte) (k : nat) :
  getUint32 l (Z.of_nat k)
  = match firstn 4 (skipn k l) with
    | [b0; b1; b2; b3] =>
        Ok (byte_to_Z b0 + 256 * byte_to_Z b1
            + 65536 * byte_to_Z b2 + 16777216 * byte_to_Z b3)
    | _ => Err RangeError
    end.
Proof.
  unfold getUint32.
  replace (Z.of_nat k <? 0) with false by (symmetry; apply Z.ltb_ge; lia).
  change 4 with (Z.of_nat 4) at 1. rewrite slice_nat. reflexivity.
Qed.

Lemma len_encodeCDRecord (r : CDRecord) :
  len (encodeCDRecord r)
  = 46 + len (cd_name r) + len (cd_extra r) + len (cd_comment r).
Proof.
  unfold encodeCDRecord. rewrite !len_app. unfold le16, le32, len.
  cbn [List.length]. lia.
Qed.

Lemma parseCentralDirEntry_encoded (r : CDRecord) (post : list byte) :
  cd_wf r ->
  parseCentralDirEntry (encodeCDRecord r ++ post) 0
  = Ok (entry_of_record r, len (encodeCDRecord r)).
Proof.
  intros (_ & Hsz & Hc & Hl & Hn & He & Hcm).
  pose proof (len_nonneg (cd_name r)).
  pose proof (len_nonneg (cd_extra r)).
  pose proof (len_nonneg (cd_comment r)).
  rewrite len_encodeCDRecord.
  unfold parseCentralDirEntry, res_bind. rewrite !Z.add_0_l.
  unfold encodeCDRecord. cbn [app le16 le32]. rewrite <- !app_assoc.
  rewrite (getUint32_nat _ 0).
  cbn [skipn firstn].
  change (byte_to_Z x50 + 256 * byte_to_Z x4b + 65536 * byte_to_Z x01
          + 16777216 * byte_to_Z x02 =? 0x02014b50) with true.
  cbn [negb].
  rewrite (getUint16_nat _ 28). cbn [skipn firstn].
  rewrite u16_le16 by lia.
  rewrite (getUint16_nat _ 30). cbn [skipn firstn].
  rewrite u16_le16 by lia.
  rewrite (getUint16_nat _ 32). cbn [skipn firstn].
  rewrite u16_le16 by lia.
  rewrite (getUint32_nat _ 20). cbn [skipn firstn].
  rewrite u32_le32 by lia.
  rewrite (getUint32_nat _ 24). cbn [skipn firstn].
  rewrite u32_le32 by lia.
  rewrite (getUint32_nat _ 42). cbn [skipn firstn].
  rewrite u32_le32 by lia.
  match goal with
  | |- context [slice ?X 46 ?e] =>
      assert (Hname : slice X 46 e = cd_name r)
  end.
  { change 46 with (Z.of_nat 46). unfold len. rewrite slice_nat.
    cbn [skipn]. rewrite firstn_app, firstn_all, Nat.sub_diag.
    cbn [firstn]. apply app_nil_r. }
  rewrite !Hname.
  unfold entry_of_record, is_image_name. cbn zeta.
  do 2 f_equal; lia.
Qed.

















End Properties.

(* ================================================================== *)
(** * Part IV. The properties on the example archives *)
(* ================================================================== *)

Lemma static_host_serves (data : list byte) (header : string) :
  header <> EmptyString ->
  parseInt10 header = Num (len data) ->
  serves (H := static_host data header) data.
Proof.
  intros Hne Hparse. split.
  - intros u w. eexists. exists header. cbn. repeat split; assumption.
  - intros u start end_ w. reflexivity.
Qed.

Lemma example_host_serves :
  serves (H := example_host) (archive_bytes example_archive).
Proof.
  apply static_host_serves; [discriminate | vm_compute; reflexivity].
Qed.


(** ** Offset resolution and names outside ASCII *)

Lemma utf8_byte_length_ascii (s : jsstring) :
  Forall (fun c => (c < 0x80)%N) s ->
  utf8_byte_length s = Z.of_nat (List.length s).
Proof.
  induction 1 as [|c s Hc _ IH]; [reflexivity|].
  cbn [utf8_byte_length List.length].
  replace (c <? 0x80)%N with true by (symmetry; apply N.ltb_lt; exact Hc).
  rewrite IH. lia.
Qed.

(** For a name of ASCII characters the number of code units is the number
    of bytes, and the resolved offset is the one of the design document. *)
Lemma calculateFileDataOffset_ascii_name (e : FileEntry) (l : Z) :
  localHeaderOffset e = Num l ->
  Forall (fun c => (c < 0x80)%N) (fileName e) ->
  dataOffset (calculateFileDataOffset e)
  = Some (Num (l + 30 + utf8_byte_length (fileName e))).
Proof.
  intros Hl Hascii.
  rewrite calculateFileDataOffset_dataOffset, Hl, utf8_byte_length_ascii
    by exact Hascii.
  cbn [num_add]. do 2 f_equal. lia.
Qed.

(** C1.  The code adds the number of UTF-16 code units of the name, not
    the number of bytes of its UTF-8 form.  In the archive that holds the
    one file named U+00E9 [.jpg] (six bytes, five code units) at local
    header offset 0, the data start at 36 = 0 + 30 + 6, the listing gives
    the data offset 35, and the extraction returns the last byte of the
    name followed by the first three bytes of the file. *)
Theorem calculateFileDataOffset_counts_code_units :
  exists e,
    fst (readTableOfContents (H := accent_host) (initial "u" tt)) = Ok [e]
    /\ fileName e = [0xE9; 0x2E; 0x6A; 0x70; 0x67]%N
    /\ utf8_byte_length (fileName e) = 6
    /\ len (cd_name accent_file) = 6
    /\ localHeaderOffset e = Num 0
    /\ dataOffset e = Some (Num 35)
    /\ dataOffset e <> Some (Num (0 + 30 + utf8_byte_length (fileName e)))
    /\ slice (archive_bytes accent_archive) 36 40 = [x0a; x0b; x0c; x0d]
    /\ exists blob e',
        fst (extractFile (H := accent_host) e (initial "u" tt))
        = Ok (blob, e')
        /\ blob_bytes blob = [x67; x0a; x0b; x0c].
Proof.
  eexists. split; [vm_compute; reflexivity|].
  repeat (split; [vm_compute; first [reflexivity | discriminate]|]).
  do 2 eexists. split; vm_compute; reflexivity.
Qed.

(** ** Witnesses *)

Lemma fetchRange_returns_body_witness :
  exists buffer,
    fst (fetchRange (H := example_host) (Num 72) (Num 172) (initial "u" tt))
    = Ok buffer
    /\ buffer = slice (archive_bytes example_archive) 72 (172 + 1)
    /\ len buffer = 172 - 72 + 1.
Proof.
  apply (proj2 (fetchRange_returns_body (H := example_host)
                  (Num 72) (Num 172) (initial "u" tt))
           (archive_bytes example_archive) 72 172).
  - exact example_host_serves.
  - reflexivity.
  - reflexivity.
  - lia.
  - vm_compute. reflexivity.
Defined.

Lemma parseCentralDirEntry_classifies_witness :
  parseCentralDirEntry (H := example_host)
    (central_directory example_archive) 48
  = Ok (entry_of_record (H := example_host) example_file, 101)
  /\ (isImage (entry_of_record (H := example_host) example_file) = Some true
      \/ isImage (entry_of_record (H := example_host) example_file)
         = Some false).
Proof.
  split; [vm_compute; reflexivity|].
  apply (parseCentralDirEntry_classifies (H := example_host)
           (central_directory example_archive) 48
           (entry_of_record (H := example_host) example_file) 101).
  vm_compute. reflexivity.
Defined.


Lemma readCentralDirectory_partial_success_witness :
  exists st2,
    readTableOfContents (H := damaged_host) (initial "u" tt)
    = (Ok (map processEntry
             [entry_of_record (H := damaged_host) example_dir]), st2).
Proof.
  eexists.
  refine (proj1 (proj2
    (readCentralDirectory_partial_success (H := damaged_host)
       (initial "u" tt)
       (snd (findEOCD (H := damaged_host) (initial "u" tt)))
       _
       {| diskNumber := Num 0; centralDirDisk := Num 0;
          diskEntryCount := Num 2; totalEntryCount := Num 2;
          centralDirSize := Num 101; centralDirOffset := Num 72;
          commentLength := Num 0; absoluteOffset := Num 173 |}
       (slice damaged_bytes 72 173)
       [entry_of_record (H := damaged_host) example_dir]
       48 2 (byte_to_Z x4b * 256 + byte_to_Z x01 * 65536
             + byte_to_Z x02 * 16777216)
       _ _ _ _ _ _ _))).
  - vm_compute. reflexivity.
  - vm_compute. reflexivity.
  - reflexivity.
  - eapply decodes_cons; [vm_compute; reflexivity | apply decodes_nil].
  - vm_compute. reflexivity.
  - vm_compute. discriminate.
  - vm_compute. discriminate.
Defined.





Lemma findEOCD_locates_last_full_record_witness :
  snd (findEOCD (H := example_host) (initial "u" tt))
  = after_request (H := example_host)
      (GetRange "u" (Num 0) (Num 194))
      (snd (getFileSize (H := example_host) (initial "u" tt))).
Proof.
  refine (proj1 (findEOCD_locates_last_full_record (H := example_host)
                   (initial "u" tt)
                   (snd (getFileSize (H := example_host) (initial "u" tt)))
                   _)).
  right. split; [reflexivity|]. exists (Num 195). vm_compute. reflexivity.
Defined.

Lemma extractFile_resolved_witness :
  exists blob,
    fst (extractFile (H := example_host)
           (calculateFileDataOffset
              (entry_of_record (H := example_host) example_file))
           (initial "u" tt))
    = Ok (blob, calculateFileDataOffset
                  (entry_of_record (H := example_host) example_file))
    /\ blob_bytes blob = slice (archive_bytes example_archive) 69 (69 + 3)
    /\ len (blob_bytes blob) = 3.
Proof.
  refine (proj2 (proj2 (proj2
    (extractFile_resolved (H := example_host)
       (calculateFileDataOffset
          (entry_of_record (H := example_host) example_file))
       (Num 69) (initial "u" tt) _ _)))
    (archive_bytes example_archive) 69 3 _ _ _ _ _ _).
  - reflexivity.
  - reflexivity.
  - exact example_host_serves.
  - reflexivity.
  - reflexivity.
  - lia.
  - lia.
  - vm_compute. discriminate.
Defined.

Lemma fileSize_written_by_size_query_only_witness :
  this (snd (readTableOfContents (H := example_host)
               {| this := {| url := "u"; fileSize := Num 195 |};
                  world := tt; trace := [] |}))
  = {| url := "u"; fileSize := Num 195 |}.
Proof.
  refine (proj2 (proj2 (proj2 (proj2 (proj2 (proj2
    (fileSize_written_by_size_query_only (H := example_host)
       {| this := {| url := "u"; fileSize := Num 195 |};
          world := tt; trace := [] |}))))) _)).
  reflexivity.
Defined.

(** ** Counterexamples to the statements of the design document *)

(** C2 as stated fails: a range that runs past the end of the file is
    answered with the five bytes that exist, and the read succeeds with
    them although ten were asked for. *)
Lemma fetchRange_accepts_short_body :
  exists buffer,
    fst (fetchRange (H := example_host) (Num 190) (Num 199) (initial "u" tt))
    = Ok buffer
    /\ len buffer = 5
    /\ len buffer <> 199 - 190 + 1.
Proof.
  eexists. split; [vm_compute; reflexivity|].
  split; vm_compute; [reflexivity | discriminate].
Qed.


(** C5 as stated fails: in the first archive the last occurrence of the
    signature in the window is at 22, in the comment, and the record
    returned is the one at 0; in the second the window holds the signature
    at 22 and the search fails. *)
Lemma findEOCD_ignores_late_signature :
  (exists eocd,
      fst (findEOCD (H := signature_comment_host) (initial "u" tt)) = Ok eocd
      /\ absoluteOffset eocd = Num 0
      /\ trace (snd (findEOCD (H := signature_comment_host)
                       (initial "u" tt)))
         = [Head "u"; GetRange "u" (Num 0) (Num 25)]
      /\ len (archive_bytes signature_comment_archive) = 26
      /\ eocd_signature_at (archive_bytes signature_comment_archive) 22
         = true)
  /\ fst (findEOCD (H := late_signature_host) (initial "u" tt))
     = Err EOCDNotFound
  /\ trace (snd (findEOCD (H := late_signature_host) (initial "u" tt)))
     = [Head "u"; GetRange "u" (Num 0) (Num 25)]
  /\ len late_signature_bytes = 26
  /\ eocd_signature_at late_signature_bytes 22 = true.
Proof.
  split.
  - eexists. split; [vm_compute; reflexivity|].
    repeat split; vm_compute; reflexivity.
  - repeat split; vm_compute; reflexivity.
Qed.

(** C6 as stated fails: for a resolved entry whose recorded size runs past
    the end of the file the blob is shorter than the recorded size, and for
    a resolved entry of size 0 the range is not well formed, the server
    sends the whole file, and the blob holds all of it. *)
Lemma extractFile_length_differs :
  (exists blob e',
      fst (extractFile (H := example_host)
             (calculateFileDataOffset
                (entry_of_record (H := example_host)
                   (stored_record (ascii_bytes "t/a.PNG") 200 32)))
             (initial "u" tt))
      = Ok (blob, e')
      /\ compressedSize e' = Num 200
      /\ len (blob_bytes blob) = 126)
  /\ (exists blob e',
         fst (extractFile (H := example_host)
                (calculateFileDataOffset
                   (entry_of_record (H := example_host)
                      (stored_record (ascii_bytes "t/a.PNG") 0 32)))
                (initial "u" tt))
         = Ok (blob, e')
         /\ compressedSize e' = Num 0
         /\ len (blob_bytes blob) = 195).
Proof.
  split; do 2 eexists; (split; [vm_compute; reflexivity|]);
    split; vm_compute; reflexivity.
Qed.

(** C7 as stated fails: a second size query overwrites the cached length
    with what the server reports then. *)
Lemma getFileSize_overwrites_cached_length :
  exists st1 st2,
    getFileSize (H := scripted_host)
      (initial "u" [head_response "100"; head_response "200"])
    = (Ok (Num 100), st1)
    /\ fileSize (this st1) = Num 100
    /\ getFileSize (H := scripted_host) st1 = (Ok (Num 200), st2)
    /\ fileSize (this st2) = Num 200.
Proof.
  do 2 eexists. split; [vm_compute; reflexivity|].
  split; [reflexivity|]. split; vm_compute; reflexivity.
Qed.

(* ================================================================== *)
(** * Part V. Further properties of the reader and of the page *)
(* ================================================================== *)

(** ** Reads of a [DataView] *)

Lemma len_slice {A} (l : list A) (a b : Z) :
  0 <= a -> len (slice l a b) = Z.max 0 (Z.min (b - a) (len l - a)).
Proof.
  intros Ha. unfold slice, len. rewrite length_firstn, length_skipn. lia.
Qed.

Lemma getUint16_ok_iff (buffer : list byte) (k : Z) :
  (exists v, getUint16 buffer k = Ok v) <-> 0 <= k /\ k + 2 <= len buffer.
Proof.
  unfold getUint16. destruct (k <? 0) eqn:Ek.
  - apply Z.ltb_lt in Ek. split; [intros [v Hv]; discriminate | lia].
  - apply Z.ltb_ge in Ek.
    pose proof (len_slice buffer k (k + 2) Ek) as Hl.
    destruct (slice buffer k (k + 2)) as [|b0 [|b1 [|b2 t]]];
      unfold len in Hl; cbn [List.length] in Hl; split;
      try (intros [v Hv]; discriminate); try (intros [_ Hk]; unfold len in *; lia).
    + intros _. unfold len in *. lia.
    + intros _. eexists. reflexivity.
Qed.

Lemma getUint32_ok_iff (buffer : list byte) (k : Z) :
  (exists v, getUint32 buffer k = Ok v) <-> 0 <= k /\ k + 4 <= len buffer.
Proof.
  unfold getUint32. destruct (k <? 0) eqn:Ek.
  - apply Z.ltb_lt in Ek. split; [intros [v Hv]; discriminate | lia].
  - apply Z.ltb_ge in Ek.
    pose proof (len_slice buffer k (k + 4) Ek) as Hl.
    destruct (slice buffer k (k + 4)) as [|b0 [|b1 [|b2 [|b3 [|b4 t]]]]];
      unfold len in Hl; cbn [List.length] in Hl; split;
      try (intros [v Hv]; discriminate); try (intros [_ Hk]; unfold len in *; lia).
    + intros _. unfold len in *. lia.
    + intros _. eexists. reflexivity.
Qed.

Lemma getUint16_error (buffer : list byte) (k : Z) (x : JsError) :
  getUint16 buffer k = Err x -> x = RangeError.
Proof.
  unfold getUint16. destruct (k <? 0); [congruence|].
  destruct (slice buffer k (k + 2)) as [|b0 [|b1 [|b2 t]]]; congruence.
Qed.

Lemma getUint32_error (buffer : list byte) (k : Z) (x : JsError) :
  getUint32 buffer k = Err x -> x = RangeError.
Proof.
  unfold getUint32. destruct (k <? 0); [congruence|].
  destruct (slice buffer k (k + 4)) as [|b0 [|b1 [|b2 [|b3 [|b4 t]]]]];
    congruence.
Qed.

Lemma getUint16_in_bounds (buffer : list byte) (k : Z) :
  0 <= k -> k + 2 <= len buffer -> exists v, getUint16 buffer k = Ok v.
Proof. intros. apply getUint16_ok_iff. lia. Qed.

Lemma getUint32_in_bounds (buffer : list byte) (k : Z) :
  0 <= k -> k + 4 <= len buffer -> exists v, getUint32 buffer k = Ok v.
Proof. intros. apply getUint32_ok_iff. lia. Qed.
Section Further.
Context {W : Type} `{Host W}.

(** ** [parseEOCD] *)

Lemma parseEOCD_ok_inv (buffer : list byte) (e : EOCD) :
  parseEOCD buffer = Ok e ->
  22 <= len buffer
  /\ getUint32 buffer 0 = Ok 0x06054b50
  /\ absoluteOffset e = Num 0
  /\ exists disk cdisk dcount total size offset clen,
      diskNumber e = Num disk /\ 0 <= disk < 2 ^ 16
      /\ centralDirDisk e = Num cdisk /\ 0 <= cdisk < 2 ^ 16
      /\ diskEntryCount e = Num dcount /\ 0 <= dcount < 2 ^ 16
      /\ totalEntryCount e = Num total /\ 0 <= total < 2 ^ 16
      /\ centralDirSize e = Num size /\ 0 <= size < 2 ^ 32
      /\ centralDirOffset e = Num offset /\ 0 <= offset < 2 ^ 32
      /\ commentLength e = Num clen /\ 0 <= clen < 2 ^ 16.
Proof.
  unfold parseEOCD, res_bind.
  destruct (getUint32 buffer 0) as [sig|] eqn:Esig; [|discriminate].
  destruct (sig =? 0x06054b50) eqn:Etest; cbn [negb]; [|discriminate].
  apply Z.eqb_eq in Etest. subst sig.
  destruct (getUint16 buffer 4) as [f4|] eqn:E4; [|discriminate].
  destruct (getUint16 buffer 6) as [f6|] eqn:E6; [|discriminate].
  destruct (getUint16 buffer 8) as [f8|] eqn:E8; [|discriminate].
  destruct (getUint16 buffer 10) as [f10|] eqn:E10; [|discriminate].
  destruct (getUint32 buffer 12) as [f12|] eqn:E12; [|discriminate].
  destruct (getUint32 buffer 16) as [f16|] eqn:E16; [|discriminate].
  destruct (getUint16 buffer 20) as [f20|] eqn:E20; [|discriminate].
  intros He.
  assert (Hee : e = {| diskNumber := Num f4; centralDirDisk := Num f6;
                       diskEntryCount := Num f8; totalEntryCount := Num f10;
                       centralDirSize := Num f12; centralDirOffset := Num f16;
                       commentLength := Num f20; absoluteOffset := Num 0 |})
    by congruence.
  subst e.
  assert (Hb : 0 <= 20 /\ 20 + 2 <= len buffer)
    by (apply (getUint16_ok_iff buffer 20); eexists; exact E20).
  split; [lia|]. split; [reflexivity|]. split; [reflexivity|].
  exists f4, f6, f8, f10, f12, f16, f20.
  cbn [diskNumber centralDirDisk diskEntryCount totalEntryCount
       centralDirSize centralDirOffset commentLength].
  apply getUint16_range in E4, E6, E8, E10, E20.
  apply getUint32_range in E12, E16.
  repeat split; lia.
Qed.

Lemma parseEOCD_error (buffer : list byte) (x : JsError) :
  parseEOCD buffer = Err x ->
  (x = InvalidEOCDSignature
   /\ exists sig, getUint32 buffer 0 = Ok sig /\ sig <> 0x06054b50)
  \/ (x = RangeError /\ len buffer < 22).
Proof.
  unfold parseEOCD, res_bind.
  assert (Hshort : forall k n, 0 <= k -> k + n <= 22 ->
             ~ len buffer < 22 -> 0 <= k /\ k + n <= len buffer)
    by (intros; lia).
  destruct (getUint32 buffer 0) as [sig|x0] eqn:Esig.
  2:{ intros [= <-]. apply getUint32_error in Esig as Hx. subst x0.
      right. split; [reflexivity|].
      destruct (Z_lt_le_dec (len buffer) 22) as [Hl|Hl]; [exact Hl|].
      destruct (getUint32_in_bounds buffer 0) as [v Hv]; [lia|lia|congruence]. }
  destruct (sig =? 0x06054b50) eqn:Etest; cbn [negb].
  2:{ intros [= <-]. apply Z.eqb_neq in Etest. left.
      split; [reflexivity|]. exists sig. split; [reflexivity|exact Etest]. }
  destruct (Z_lt_le_dec (len buffer) 22) as [Hl|Hl].
  - intros Hx. right. split; [|exact Hl]. revert Hx.
    destruct (getUint16 buffer 4) as [f4|x1] eqn:E4;
      [|intros [= <-]; apply getUint16_error in E4; exact E4].
    destruct (getUint16 buffer 6) as [f6|x1] eqn:E6;
      [|intros [= <-]; apply getUint16_error in E6; exact E6].
    destruct (getUint16 buffer 8) as [f8|x1] eqn:E8;
      [|intros [= <-]; apply getUint16_error in E8; exact E8].
    destruct (getUint16 buffer 10) as [f10|x1] eqn:E10;
      [|intros [= <-]; apply getUint16_error in E10; exact E10].
    destruct (getUint32 buffer 12) as [f12|x1] eqn:E12;
      [|intros [= <-]; apply getUint32_error in E12; exact E12].
    destruct (getUint32 buffer 16) as [f16|x1] eqn:E16;
      [|intros [= <-]; apply getUint32_error in E16; exact E16].
    destruct (getUint16 buffer 20) as [f20|x1] eqn:E20;
      [|intros [= <-]; apply getUint16_error in E20; exact E20].
    discriminate.
  - destruct (getUint16_in_bounds buffer 4) as [f4 ->]; [lia|lia|].
    destruct (getUint16_in_bounds buffer 6) as [f6 ->]; [lia|lia|].
    destruct (getUint16_in_bounds buffer 8) as [f8 ->]; [lia|lia|].
    destruct (getUint16_in_bounds buffer 10) as [f10 ->]; [lia|lia|].
    destruct (getUint32_in_bounds buffer 12) as [f12 ->]; [lia|lia|].
    destruct (getUint32_in_bounds buffer 16) as [f16 ->]; [lia|lia|].
    destruct (getUint16_in_bounds buffer 20) as [f20 ->]; [lia|lia|].
    discriminate.
Qed.

(** X1.  [parseEOCD] succeeds exactly on a buffer of at least 22 bytes that
    starts with the signature; the fields it returns fit their widths and
    the absolute offset is 0.  It throws the signature error when the
    first four bytes can be read and are not the signature (and then
    always), and a [RangeError] only on a buffer shorter than 22 bytes. *)
Theorem parseEOCD_outcome (buffer : list byte) :
  match parseEOCD buffer with
  | Ok e =>
      22 <= len buffer
      /\ getUint32 buffer 0 = Ok 0x06054b50
      /\ absoluteOffset e = Num 0
      /\ exists disk cdisk dcount total size offset clen,
          diskNumber e = Num disk /\ 0 <= disk < 2 ^ 16
          /\ centralDirDisk e = Num cdisk /\ 0 <= cdisk < 2 ^ 16
          /\ diskEntryCount e = Num dcount /\ 0 <= dcount < 2 ^ 16
          /\ totalEntryCount e = Num total /\ 0 <= total < 2 ^ 16
          /\ centralDirSize e = Num size /\ 0 <= size < 2 ^ 32
          /\ centralDirOffset e = Num offset /\ 0 <= offset < 2 ^ 32
          /\ commentLength e = Num clen /\ 0 <= clen < 2 ^ 16
  | Err x =>
      (x = InvalidEOCDSignature
       /\ exists sig, getUint32 buffer 0 = Ok sig /\ sig <> 0x06054b50)
      \/ (x = RangeError /\ len buffer < 22)
  end
  /\ (22 <= len buffer -> getUint32 buffer 0 = Ok 0x06054b50 ->
      exists e, parseEOCD buffer = Ok e)
  /\ (forall sig,
         getUint32 buffer 0 = Ok sig -> sig <> 0x06054b50 ->
         parseEOCD buffer = Err InvalidEOCDSignature).
Proof.
  split; [|split].
  - destruct (parseEOCD buffer) as [e|x] eqn:Ep.
    + apply parseEOCD_ok_inv. exact Ep.
    + apply parseEOCD_error. exact Ep.
  - intros Hl Hsig. destruct (parseEOCD buffer) as [e|x] eqn:Ep.
    + exists e. reflexivity.
    + apply parseEOCD_error in Ep.
      destruct Ep as [(_ & sig & Hs & Hne)|(_ & Hshort)]; [congruence | lia].
  - intros sig Hs Hne. unfold parseEOCD, res_bind. rewrite Hs.
    replace (sig =? 0x06054b50) with false
      by (symmetry; apply Z.eqb_neq; exact Hne).
    reflexivity.
Qed.

(** X2.  Decoding the 22 bytes of an end-of-central-directory record gives
    back the entry count, the size and the offset of the directory and the
    comment length that were encoded, whatever bytes follow the record. *)
Theorem parseEOCD_round_trip (a : Archive) (rest : list byte) :
  len (ar_records a) < 2 ^ 16 ->
  len (central_directory a) < 2 ^ 32 ->
  len (ar_body a) < 2 ^ 32 ->
  len (ar_comment a) < 2 ^ 16 ->
  parseEOCD (encodeEOCD a ++ rest)
  = Ok {| diskNumber := Num 0;
          centralDirDisk := Num 0;
          diskEntryCount := Num (len (ar_records a));
          totalEntryCount := Num (len (ar_records a));
          centralDirSize := Num (len (central_directory a));
          centralDirOffset := Num (len (ar_body a));
          commentLength := Num (len (ar_comment a));
          absoluteOffset := Num 0 |}.
Proof.
  intros Hn Hcd Hb Hc.
  pose proof (len_nonneg (ar_records a)).
  pose proof (len_nonneg (central_directory a)).
  pose proof (len_nonneg (ar_body a)).
  pose proof (len_nonneg (ar_comment a)).
  unfold parseEOCD, res_bind, encodeEOCD, le16, le32. cbn [app].
  rewrite (getUint32_nat _ 0). cbn [skipn firstn].
  change (byte_to_Z x50 + 256 * byte_to_Z x4b + 65536 * byte_to_Z x05
          + 16777216 * byte_to_Z x06 =? 0x06054b50) with true.
  cbn [negb].
  rewrite (getUint16_nat _ 4). cbn [skipn firstn]. rewrite u16_le16 by lia.
  rewrite (getUint16_nat _ 6). cbn [skipn firstn]. rewrite u16_le16 by lia.
  rewrite (getUint16_nat _ 8). cbn [skipn firstn]. rewrite u16_le16 by lia.
  rewrite (getUint16_nat _ 10). cbn [skipn firstn]. rewrite u16_le16 by lia.
  rewrite (getUint32_nat _ 12). cbn [skipn firstn]. rewrite u32_le32 by lia.
  rewrite (getUint32_nat _ 16). cbn [skipn firstn]. rewrite u32_le32 by lia.
  rewrite (getUint16_nat _ 20). cbn [skipn firstn]. rewrite u16_le16 by lia.
  reflexivity.
Qed.

(** ** [parseCentralDirEntry] *)

Lemma parseCentralDirEntry_ok_bounds
      (buffer : list byte) (offset : Z) (e : FileEntry) (next : Z) :
  parseCentralDirEntry buffer offset = Ok (e, next) ->
  0 <= offset /\ offset + 46 <= len buffer /\ offset + 46 <= next.
Proof.
  intros Ep. apply parseCentralDirEntry_inv in Ep.
  destruct Ep as (fnl & efl & cl & csz & usz & lho & Hsig & Hfnl & Hefl & Hcl
                  & _ & _ & Hlho & _ & _ & _ & _ & _ & _ & _ & _ & _ & Hnext).
  assert (Hb : 0 <= offset + 42 /\ offset + 42 + 4 <= len buffer)
    by (apply getUint32_ok_iff; eexists; exact Hlho).
  assert (Hs : 0 <= offset /\ offset + 4 <= len buffer)
    by (apply getUint32_ok_iff; eexists; exact Hsig).
  apply getUint16_range in Hfnl, Hefl, Hcl. lia.
Qed.

(** X3.  [parseCentralDirEntry] succeeds exactly when the four bytes at
    [offset] are the signature and the 46 fixed bytes of the header lie
    inside the buffer.  It throws the signature error when the four bytes
    can be read and differ (and then always), and a [RangeError] only when
    the offset is
    negative or fewer than 46 bytes remain; it throws nothing else. *)
Theorem parseCentralDirEntry_outcome (buffer : list byte) (offset : Z) :
  match parseCentralDirEntry buffer offset with
  | Ok (e, next) =>
      getUint32 buffer offset = Ok 0x02014b50
      /\ 0 <= offset /\ offset + 46 <= len buffer
  | Err InvalidCentralDirSignature =>
      exists sig, getUint32 buffer offset = Ok sig /\ sig <> 0x02014b50
  | Err RangeError => offset < 0 \/ len buffer < offset + 46
  | Err _ => False
  end
  /\ (getUint32 buffer offset = Ok 0x02014b50 ->
      offset + 46 <= len buffer ->
      exists e next, parseCentralDirEntry buffer offset = Ok (e, next))
  /\ (forall sig,
         getUint32 buffer offset = Ok sig -> sig <> 0x02014b50 ->
         parseCentralDirEntry buffer offset = Err InvalidCentralDirSignature).
Proof.
  split; [|split].
  - destruct (parseCentralDirEntry buffer offset) as [[e next]|x] eqn:Ep.
    + apply parseCentralDirEntry_inv in Ep.
      destruct Ep as (fnl & efl & cl & csz & usz & lho & Hsig & _ & _ & _ & _
                      & _ & Hlho & _).
      assert (Hb : 0 <= offset + 42 /\ offset + 42 + 4 <= len buffer)
        by (apply getUint32_ok_iff; eexists; exact Hlho).
      assert (Hs : 0 <= offset /\ offset + 4 <= len buffer)
        by (apply getUint32_ok_iff; eexists; exact Hsig).
      repeat split; [exact Hsig | lia | lia].
    + revert Ep. unfold parseCentralDirEntry, res_bind.
      destruct (getUint32 buffer offset) as [sig|x0] eqn:Esig.
      2:{ intros [= <-]. apply getUint32_error in Esig as Hx. subst x0.
          destruct (Z_lt_le_dec offset 0) as [Ho|Ho]; [left; exact Ho|].
          destruct (Z_lt_le_dec (len buffer) (offset + 46)) as [Hl|Hl];
            [right; exact Hl|].
          destruct (getUint32_in_bounds buffer offset) as [v Hv];
            [lia|lia|congruence]. }
      destruct (sig =? 0x02014b50) eqn:Etest; cbn [negb].
      2:{ intros [= <-]. apply Z.eqb_neq in Etest. exists sig.
          split; [reflexivity | exact Etest]. }
      assert (Hs : 0 <= offset /\ offset + 4 <= len buffer)
        by (apply getUint32_ok_iff; eexists; exact Esig).
      destruct (Z_lt_le_dec (len buffer) (offset + 46)) as [Hl|Hl].
      { (* some read fails: the error is a RangeError *)
        destruct (getUint16 buffer (offset + 28)) as [fnl|x1] eqn:E1;
          [|intros [= <-]; apply getUint16_error in E1; subst; right; exact Hl].
        destruct (getUint16 buffer (offset + 30)) as [efl|x1] eqn:E2;
          [|intros [= <-]; apply getUint16_error in E2; subst; right; exact Hl].
        destruct (getUint16 buffer (offset + 32)) as [cl|x1] eqn:E3;
          [|intros [= <-]; apply getUint16_error in E3; subst; right; exact Hl].
        destruct (getUint32 buffer (offset + 20)) as [csz|x1] eqn:E4;
          [|intros [= <-]; apply getUint32_error in E4; subst; right; exact Hl].
        destruct (getUint32 buffer (offset + 24)) as [usz|x1] eqn:E5;
          [|intros [= <-]; apply getUint32_error in E5; subst; right; exact Hl].
        destruct (getUint32 buffer (offset + 42)) as [lho|x1] eqn:E6;
          [|intros [= <-]; apply getUint32_error in E6; subst; right; exact Hl].
        discriminate. }
      destruct (getUint16_in_bounds buffer (offset + 28)) as [fnl ->]; [lia|lia|].
      destruct (getUint16_in_bounds buffer (offset + 30)) as [efl ->]; [lia|lia|].
      destruct (getUint16_in_bounds buffer (offset + 32)) as [cl ->]; [lia|lia|].
      destruct (getUint32_in_bounds buffer (offset + 20)) as [csz ->]; [lia|lia|].
      destruct (getUint32_in_bounds buffer (offset + 24)) as [usz ->]; [lia|lia|].
      destruct (getUint32_in_bounds buffer (offset + 42)) as [lho ->]; [lia|lia|].
      discriminate.
  - intros Hsig Hl.
    assert (Hs : 0 <= offset /\ offset + 4 <= len buffer)
      by (apply getUint32_ok_iff; eexists; exact Hsig).
    unfold parseCentralDirEntry, res_bind. rewrite Hsig.
    cbn [Z.eqb Pos.eqb negb].
    destruct (getUint16_in_bounds buffer (offset + 28)) as [fnl ->]; [lia|lia|].
    destruct (getUint16_in_bounds buffer (offset + 30)) as [efl ->]; [lia|lia|].
    destruct (getUint16_in_bounds buffer (offset + 32)) as [cl ->]; [lia|lia|].
    destruct (getUint32_in_bounds buffer (offset + 20)) as [csz ->]; [lia|lia|].
    destruct (getUint32_in_bounds buffer (offset + 24)) as [usz ->]; [lia|lia|].
    destruct (getUint32_in_bounds buffer (offset + 42)) as [lho ->]; [lia|lia|].
    do 2 eexists. reflexivity.
  - intros sig Hs Hne.
    exact (parseCentralDirEntry_bad_signature buffer offset sig Hs Hne).
Qed.

(** X4.  A header that decodes leaves the offset at least 46 bytes and at
    most 46 + 3 * 65535 bytes further; the sizes and the local header
    offset of the entry are 32-bit values, the three resolution fields are
    unset, and the name is decoded from the bytes that exist of the
    [fileNameLength] announced: a name that runs past the end of the buffer
    is cut there without an error. *)
Theorem parseCentralDirEntry_advances
        (buffer : list byte) (offset : Z) (e : FileEntry) (next : Z) :
  parseCentralDirEntry buffer offset = Ok (e, next) ->
  offset + 46 <= next <= offset + 46 + 3 * 65535
  /\ (exists c u l,
         compressedSize e = Num c /\ 0 <= c < 2 ^ 32
         /\ uncompressedSize e = Num u /\ 0 <= u < 2 ^ 32
         /\ localHeaderOffset e = Num l /\ 0 <= l < 2 ^ 32)
  /\ fileNameLength e = None /\ extraFieldLength e = None
  /\ dataOffset e = None
  /\ (exists fnl,
         getUint16 buffer (offset + 28) = Ok fnl
         /\ fileName e
            = TextDecoder_decode
                (slice buffer (offset + 46) (offset + 46 + fnl))
         /\ len (slice buffer (offset + 46) (offset + 46 + fnl))
            = Z.min fnl (len buffer - (offset + 46))).
Proof.
  intros Hp.
  destruct (parseCentralDirEntry_ok_bounds buffer offset e next Hp)
    as (Ho & Hl & _).
  apply parseCentralDirEntry_inv in Hp.
  destruct Hp as (fnl & efl & cl & csz & usz & lho & _ & Hfnl & Hefl & Hcl
                  & Hcsz & Husz & Hlho & Hname & Hc & Hu & Hlo & Hn1 & Hn2
                  & Hn3 & _ & _ & Hnext).
  pose proof (getUint16_range _ _ _ Hfnl).
  pose proof (getUint16_range _ _ _ Hefl).
  pose proof (getUint16_range _ _ _ Hcl).
  pose proof (getUint32_range _ _ _ Hcsz).
  pose proof (getUint32_range _ _ _ Husz).
  pose proof (getUint32_range _ _ _ Hlho).
  split; [lia|]. split; [exists csz, usz, lho; repeat split; (assumption || lia)|].
  repeat (split; [assumption|]).
  exists fnl.
  split; [exact Hfnl|]. split; [exact Hname|].
  rewrite len_slice by lia. lia.
Qed.

Lemma parseCentralDirEntry_round_trip_pre
      (pre post : list byte) (r : CDRecord) :
  cd_wf r ->
  parseCentralDirEntry (pre ++ encodeCDRecord r ++ post) (len pre)
  = Ok (entry_of_record r, len pre + len (encodeCDRecord r)).
Proof.
  intros Hr. rewrite <- (Z.add_0_r (len pre)) at 1.
  rewrite parseCentralDirEntry_skip by lia.
  rewrite parseCentralDirEntry_encoded by exact Hr. reflexivity.
Qed.

(** X5.  Decoding the encoding of the header of a stored entry, wherever it
    lies in the buffer and whatever follows it, gives the entry that the
    header describes and the offset just behind the header. *)
Theorem parseCentralDirEntry_round_trip
        (pre post : list byte) (r : CDRecord) :
  cd_wf r ->
  parseCentralDirEntry (pre ++ encodeCDRecord r ++ post) (len pre)
  = Ok (entry_of_record r, len pre + len (encodeCDRecord r))
  /\ len (encodeCDRecord r)
     = 46 + len (cd_name r) + len (cd_extra r) + len (cd_comment r).
Proof.
  intros Hr. split.
  - apply parseCentralDirEntry_round_trip_pre. exact Hr.
  - apply len_encodeCDRecord.
Qed.

(** ** The decode loop *)

Lemma readEntries_bounds (buffer : list byte) (n : nat) :
  forall o, 0 <= o ->
    (List.length (readEntries buffer n o) <= n)%nat
    /\ 46 * len (readEntries buffer n o) <= Z.max 0 (len buffer - o).
Proof.
  induction n as [|n IH]; intros o Ho.
  - cbn. unfold len. cbn. lia.
  - cbn [readEntries].
    destruct (parseCentralDirEntry buffer o) as [[e next]|x] eqn:Ep.
    + destruct (parseCentralDirEntry_ok_bounds buffer o e next Ep)
        as (_ & Hl & Hnext).
      destruct (IH next) as [IH1 IH2]; [lia|].
      unfold len in *. cbn [List.length]. lia.
    + unfold len. cbn. lia.
Qed.

(** X6.  Whatever the buffer and whatever count the end record announces,
    the decode loop returns at most that many entries, and no more than
    the buffer has room for at 46 bytes a header. *)
Theorem readEntries_at_most (buffer : list byte) (n : nat) :
  (List.length (readEntries buffer n 0) <= n)%nat
  /\ 46 * len (readEntries buffer n 0) <= len buffer.
Proof.
  destruct (readEntries_bounds buffer n 0) as [H1 H2]; [lia|].
  split; [exact H1|]. pose proof (len_nonneg buffer). lia.
Qed.

Lemma getUint32_at_end (pre : list byte) :
  getUint32 pre (len pre) = Err RangeError.
Proof.
  destruct (getUint32 pre (len pre)) as [v|x] eqn:E.
  - assert (Hb : 0 <= len pre /\ len pre + 4 <= len pre)
      by (apply getUint32_ok_iff; eexists; exact E). lia.
  - apply getUint32_error in E as ->. reflexivity.
Qed.

Lemma readEntries_prefix (records : list CDRecord) :
  Forall cd_wf records ->
  forall (pre : list byte) (n : nat),
    readEntries (pre ++ flat_map encodeCDRecord records) n (len pre)
    = firstn n (map entry_of_record records).
Proof.
  induction 1 as [|r records Hr _ IH]; intros pre n.
  - cbn [flat_map map]. rewrite app_nil_r, firstn_nil.
    destruct n as [|n]; [reflexivity|]. cbn [readEntries].
    unfold parseCentralDirEntry, res_bind. rewrite getUint32_at_end.
    reflexivity.
  - destruct n as [|n]; [reflexivity|].
    cbn [flat_map map readEntries firstn].
    rewrite parseCentralDirEntry_round_trip_pre by exact Hr.
    f_equal. rewrite (app_assoc pre), <- len_app. apply IH.
Qed.

(** X7.  On the bytes of a central directory made of the headers of stored
    entries, the decode loop run for [n] iterations returns the entries of
    the first [n] headers, in order: all of them when the announced count
    is the number of headers or more (the loop stops at the end of the
    buffer), only the first [n] when it is less. *)
Theorem readEntries_encoded_directory (a : Archive) (n : nat) :
  Forall cd_wf (ar_records a) ->
  readEntries (central_directory a) n 0
  = firstn n (map entry_of_record (ar_records a))
  /\ ((List.length (ar_records a) <= n)%nat ->
      readEntries (central_directory a) n 0
      = map entry_of_record (ar_records a)).
Proof.
  intros Hwf.
  pose proof (readEntries_prefix (ar_records a) Hwf [] n) as Hp.
  cbn [app] in Hp. change (len []) with 0 in Hp.
  unfold central_directory. split; [exact Hp|].
  intros Hn. rewrite Hp. apply firstn_all2. rewrite length_map. exact Hn.
Qed.

(** ** [readCentralDirectory] *)

(** X8.  [readCentralDirectory] issues exactly one request, the range read
    of the directory, and fails exactly when that read fails, with the
    same exception: no content of the buffer makes it fail.  The entries
    it returns are at most the announced count and at most one per 46
    bytes received. *)
Theorem readCentralDirectory_fails_only_with_the_read
        (eocd : EOCD) (st : St W) :
  let start := centralDirOffset eocd in
  let end_ := (centralDirOffset eocd + centralDirSize eocd - Num 1)%js in
  snd (readCentralDirectory eocd st)
  = after_request (GetRange (url (this st)) start end_) st
  /\ (forall x,
         fst (readCentralDirectory eocd st) = Err x
         <-> fst (fetchRange start end_ st) = Err x)
  /\ (forall es,
         fst (readCentralDirectory eocd st) = Ok es ->
         (List.length es <= iterations (totalEntryCount eocd))%nat
         /\ exists buffer,
             fst (fetchRange start end_ st) = Ok buffer
             /\ 46 * len es <= len buffer).
Proof.
  cbn zeta. rewrite readCentralDirectory_unfold.
  pose proof (fetchRange_state (centralDirOffset eocd)
                (centralDirOffset eocd + centralDirSize eocd - Num 1)%js st)
    as Hst.
  destruct (fetchRange (centralDirOffset eocd)
              (centralDirOffset eocd + centralDirSize eocd - Num 1)%js st)
    as [[buffer|x0] st'] eqn:Ef; cbn [fst snd] in *; subst st'.
  - split; [reflexivity|]. split.
    + intros x. split; discriminate.
    + intros es Hes.
      assert (Hes' : es = readEntries buffer
                            (iterations (totalEntryCount eocd)) 0)
        by congruence.
      subst es.
      destruct (readEntries_bounds buffer
                  (iterations (totalEntryCount eocd)) 0) as [H1 H2]; [lia|].
      split; [exact H1|]. exists buffer. split; [reflexivity|].
      pose proof (len_nonneg buffer). lia.
  - split; [reflexivity|]. split.
    + intros x. split; intros Hx; congruence.
    + intros es Hes. discriminate.
Qed.

(** ** [findEOCD] *)

Lemma findEOCD_scan_ok (buffer : list byte) (startPos : jsnum) (k : nat)
      (eocd : EOCD) :
  findEOCD_scan buffer startPos k = Ok eocd ->
  exists i e0,
    (i < k)%nat
    /\ eocd_signature_at buffer i = true
    /\ parseEOCD (slice buffer (Z.of_nat i) (Z.of_nat i + 22)) = Ok e0
    /\ eocd = with_absoluteOffset e0 (startPos + Num (Z.of_nat i))%js.
Proof.
  induction k as [|i IH]; [discriminate|]. cbn [findEOCD_scan].
  destruct (eocd_signature_at buffer i) eqn:Esig.
  - unfold res_bind.
    destruct (parseEOCD (slice buffer (Z.of_nat i) (Z.of_nat i + 22)))
      as [e0|x] eqn:Ep; [|discriminate].
    intros He. exists i, e0.
    split; [lia|]. split; [exact Esig|]. split; [exact Ep | congruence].
  - intros Hs. destruct (IH Hs) as (i' & e0 & Hi & Hrest).
    exists i', e0. split; [lia | exact Hrest].
Qed.

Lemma findEOCD_scan_error (buffer : list byte) (startPos : jsnum) (k : nat)
      (x : JsError) :
  (k + 21 <= List.length buffer)%nat \/ k = O ->
  findEOCD_scan buffer startPos k = Err x -> x = EOCDNotFound.
Proof.
  intros Hk Hx.
  destruct (findEOCD_scan_spec buffer startPos k Hk)
    as [(i & eocd & _ & _ & _ & _ & Hs)|[_ Hs]]; congruence.
Qed.

Lemma getFileSize_state (st : St W) :
  trace (snd (getFileSize st)) = trace st ++ [Head (url (this st))]
  /\ url (this (snd (getFileSize st))) = url (this st).
Proof.
  rewrite getFileSize_unfold. cbn zeta.
  destruct (fst (fetch (Head (url (this st))) (world st))) as [resp|];
    [|split; reflexivity].
  destruct (resp_ok resp); [|split; reflexivity].
  destruct (resp_content_length resp) as [[|c s]|]; split; reflexivity.
Qed.

Lemma findEOCD_search_outcome (st : St W) :
  let n := fileSize (this st) in
  let startPos := (n - Math_min (Num 65557) n)%js in
  let req := GetRange (url (this st)) startPos (n - Num 1)%js in
  snd (findEOCD_search st) = after_request req st
  /\ match fst (findEOCD_search st) with
     | Ok eocd =>
         exists buffer i e0,
           fst (fetchRange startPos (n - Num 1)%js st) = Ok buffer
           /\ Z.of_nat i + 22 <= len buffer
           /\ parseEOCD (slice buffer (Z.of_nat i) (Z.of_nat i + 22)) = Ok e0
           /\ eocd = with_absoluteOffset e0 (startPos + Num (Z.of_nat i))%js
     | Err x =>
         fst (fetchRange startPos (n - Num 1)%js st) = Err x
         \/ (x = EOCDNotFound
             /\ exists buffer,
                 fst (fetchRange startPos (n - Num 1)%js st) = Ok buffer)
     end.
Proof.
  cbn zeta. rewrite findEOCD_search_unfold. cbn zeta.
  pose proof (fetchRange_state
                (fileSize (this st)
                 - Math_min (Num 65557) (fileSize (this st)))%js
                (fileSize (this st) - Num 1)%js st) as Hst.
  destruct (fetchRange
              (fileSize (this st)
               - Math_min (Num 65557) (fileSize (this st)))%js
              (fileSize (this st) - Num 1)%js st)
    as [[buffer|x0] st'] eqn:Ef; cbn [fst snd] in *; subst st'.
  - split; [reflexivity|].
    destruct (findEOCD_scan buffer _ _) as [eocd|x] eqn:Es.
    + apply findEOCD_scan_ok in Es.
      destruct Es as (i & e0 & Hi & _ & Hp & He).
      exists buffer, i, e0. repeat split; try assumption.
      unfold len in *. lia.
    + right. split; [|exists buffer; reflexivity].
      apply findEOCD_scan_error in Es; [exact Es|]. unfold len. lia.
  - split; [reflexivity|]. left. reflexivity.
Qed.

Lemma findEOCD_reaches_search (st : St W) (eocd : EOCD) :
  fst (findEOCD st) = Ok eocd ->
  exists st1, size_known st st1 /\ fst (findEOCD_search st1) = Ok eocd.
Proof.
  rewrite findEOCD_unfold. destruct (falsy (fileSize (this st))) eqn:Ef.
  - destruct (getFileSize st) as [[n|x] st1] eqn:Eg; [|discriminate].
    intros Hs. exists st1. split; [|exact Hs].
    right. split; [exact Ef|]. exists n. exact Eg.
  - intros Hs. exists st. split; [|exact Hs]. left. split; [exact Ef|reflexivity].
Qed.

Lemma findEOCD_ok_inv (st : St W) (eocd : EOCD) :
  fst (findEOCD st) = Ok eocd ->
  (exists total size offset clen,
      totalEntryCount eocd = Num total /\ 0 <= total < 2 ^ 16
      /\ centralDirSize eocd = Num size /\ 0 <= size < 2 ^ 32
      /\ centralDirOffset eocd = Num offset /\ 0 <= offset < 2 ^ 32
      /\ commentLength eocd = Num clen /\ 0 <= clen < 2 ^ 16)
  /\ Z.of_nat (iterations (totalEntryCount eocd)) <= 65535
  /\ exists st1 buffer i,
      size_known st st1
      /\ fst (fetchRange
                (fileSize (this st1)
                 - Math_min (Num 65557) (fileSize (this st1)))%js
                (fileSize (this st1) - Num 1)%js st1) = Ok buffer
      /\ Z.of_nat i + 22 <= len buffer
      /\ absoluteOffset eocd
         = (fileSize (this st1) - Math_min (Num 65557) (fileSize (this st1))
            + Num (Z.of_nat i))%js.
Proof.
  intros Hf. destruct (findEOCD_reaches_search st eocd Hf) as (st1 & Hk & Hs).
  pose proof (findEOCD_search_outcome st1) as [_ Hout]. cbn zeta in Hout.
  rewrite Hs in Hout. destruct Hout as (buffer & i & e0 & Hb & Hi & Hp & He).
  apply parseEOCD_ok_inv in Hp.
  destruct Hp as (_ & _ & _ & disk & cdisk & dcount & total & size & offset
                  & clen & _ & _ & _ & _ & _ & _ & Ht & Htb & Hsz & Hszb
                  & Hoff & Hoffb & Hcl & Hclb).
  subst eocd. unfold with_absoluteOffset.
  cbn [totalEntryCount centralDirSize centralDirOffset commentLength
       absoluteOffset].
  split; [exists total, size, offset, clen; repeat split; (assumption || lia)|].
  split; [rewrite Ht; cbn [iterations]; lia|].
  exists st1, buffer, i. repeat split; assumption.
Qed.

(** X9.  A record that [findEOCD] returns was decoded from the 22 bytes
    of the window at an index [i] where the four signature bytes stand,
    with no occurrence of the signature at a later index from which 22
    bytes remain; it is that decoded record with its absolute offset set to
    the start of the window plus [i].  Its entry count is below 65536 and
    its directory size and offset below 2^32, so that the decode loop runs
    at most 65535 times. *)
Theorem findEOCD_result (st : St W) (eocd : EOCD) :
  fst (findEOCD st) = Ok eocd ->
  (exists total size offset clen,
      totalEntryCount eocd = Num total /\ 0 <= total < 2 ^ 16
      /\ centralDirSize eocd = Num size /\ 0 <= size < 2 ^ 32
      /\ centralDirOffset eocd = Num offset /\ 0 <= offset < 2 ^ 32
      /\ commentLength eocd = Num clen /\ 0 <= clen < 2 ^ 16)
  /\ Z.of_nat (iterations (totalEntryCount eocd)) <= 65535
  /\ exists st1 buffer i e0,
      size_known st st1
      /\ fst (fetchRange
                (fileSize (this st1)
                 - Math_min (Num 65557) (fileSize (this st1)))%js
                (fileSize (this st1) - Num 1)%js st1) = Ok buffer
      /\ Z.of_nat i + 22 <= len buffer
      /\ eocd_signature_at buffer i = true
      /\ (forall j, (i < j)%nat -> Z.of_nat j + 22 <= len buffer ->
                    eocd_signature_at buffer j = false)
      /\ parseEOCD (slice buffer (Z.of_nat i) (Z.of_nat i + 22)) = Ok e0
      /\ eocd
         = with_absoluteOffset e0
             (fileSize (this st1) - Math_min (Num 65557) (fileSize (this st1))
              + Num (Z.of_nat i))%js
      /\ absoluteOffset eocd
         = (fileSize (this st1) - Math_min (Num 65557) (fileSize (this st1))
            + Num (Z.of_nat i))%js.
Proof.
  intros Hf. destruct (findEOCD_reaches_search st eocd Hf) as (st1 & Hk & Hs).
  rewrite findEOCD_search_unfold in Hs. cbn zeta in Hs.
  destruct (fetchRange
              (fileSize (this st1)
               - Math_min (Num 65557) (fileSize (this st1)))%js
              (fileSize (this st1) - Num 1)%js st1)
    as [[buffer|x0] st'] eqn:Ef; cbn [fst] in Hs; [|discriminate].
  destruct (findEOCD_scan_spec buffer
              (fileSize (this st1)
               - Math_min (Num 65557) (fileSize (this st1)))%js
              (Z.to_nat (len buffer - 22 + 1)))
    as [(i & e0 & Hi & Hsig & Hlater & Hp & Hscan)|[_ Hscan]];
    [unfold len; lia| |rewrite Hscan in Hs; discriminate].
  rewrite Hscan in Hs.
  assert (He : eocd
               = with_absoluteOffset e0
                   (fileSize (this st1)
                    - Math_min (Num 65557) (fileSize (this st1))
                    + Num (Z.of_nat i))%js) by congruence.
  clear Hs Hscan.
  pose proof (parseEOCD_ok_inv _ _ Hp) as Hinv.
  destruct Hinv as (_ & _ & _ & disk & cdisk & dcount & total & size & offset
                    & clen & _ & _ & _ & _ & _ & _ & Ht & Htb & Hsz & Hszb
                    & Hoff & Hoffb & Hcl & Hclb).
  split.
  { subst eocd. cbn [with_absoluteOffset totalEntryCount centralDirSize
                     centralDirOffset commentLength].
    exists total, size, offset, clen.
    repeat split; (assumption || lia). }
  split.
  { subst eocd. cbn [with_absoluteOffset totalEntryCount].
    rewrite Ht. cbn [iterations]. lia. }
  exists st1, buffer, i, e0.
  split; [exact Hk|]. split; [rewrite Ef; reflexivity|].
  split; [unfold len in *; lia|]. split; [exact Hsig|].
  split; [intros j Hj Hroom; apply Hlater; unfold len in *; lia|].
  split; [exact Hp|]. split; [exact He|].
  subst eocd. reflexivity.
Qed.

(** X10.  When the length that the size query cached is [NaN] (a
    content-length header that does not start with a number), [findEOCD]
    asks for the range [NaN-NaN], and a record that it finds in the bytes
    received carries the absolute offset [NaN]. *)
Theorem findEOCD_size_not_a_number (st st1 : St W) :
  size_known st st1 ->
  fileSize (this st1) = NaN ->
  snd (findEOCD st) = after_request (GetRange (url (this st1)) NaN NaN) st1
  /\ (forall eocd,
         fst (findEOCD st) = Ok eocd ->
         absoluteOffset eocd = NaN
         /\ exists buffer i e0,
             fst (fetchRange NaN NaN st1) = Ok buffer
             /\ Z.of_nat i + 22 <= len buffer
             /\ parseEOCD (slice buffer (Z.of_nat i) (Z.of_nat i + 22))
                = Ok e0
             /\ eocd = with_absoluteOffset e0 NaN).
Proof.
  intros Hknown Hn.
  rewrite (findEOCD_size_known st st1 Hknown).
  pose proof (findEOCD_search_outcome st1) as Hout. cbn zeta in Hout.
  rewrite Hn in Hout. cbn [Math_min num_sub] in Hout.
  destruct Hout as [Hst Hres]. split; [exact Hst|].
  intros eocd Hok. rewrite Hok in Hres.
  destruct Hres as (buffer & i & e0 & Hb & Hi & Hp & He).
  cbn [num_add] in He. split; [subst eocd; reflexivity|].
  exists buffer, i, e0. repeat split; assumption.
Qed.

(** X11.  When the range read of the window returns fewer than 22 bytes,
    [findEOCD] fails with the not-found error: the search loop does not run
    at all. *)
Theorem findEOCD_short_window (st st1 : St W) (buffer : list byte) :
  size_known st st1 ->
  fst (fetchRange
         (fileSize (this st1) - Math_min (Num 65557) (fileSize (this st1)))%js
         (fileSize (this st1) - Num 1)%js st1) = Ok buffer ->
  len buffer < 22 ->
  fst (findEOCD st) = Err EOCDNotFound.
Proof.
  intros Hk Hb Hl.
  rewrite (findEOCD_size_known st st1 Hk), findEOCD_search_unfold.
  cbn zeta.
  destruct (fetchRange _ _ st1) as [r st'] eqn:Ef. cbn [fst] in Hb. subst r.
  cbn [fst]. replace (Z.to_nat (len buffer - 22 + 1)) with O by lia.
  reflexivity.
Qed.



(** ** [readTableOfContents] *)

Lemma readEntries_Forall (P : FileEntry -> Prop) (buffer : list byte) :
  (forall o e next, parseCentralDirEntry buffer o = Ok (e, next) -> P e) ->
  forall n o, Forall P (readEntries buffer n o).
Proof.
  intros HP. induction n as [|n IH]; intros o; cbn [readEntries];
    [constructor|].
  destruct (parseCentralDirEntry buffer o) as [[e next]|x] eqn:Ep;
    [|constructor].
  constructor; [exact (HP o e next Ep) | apply IH].
Qed.

Lemma readCentralDirectory_state (eocd : EOCD) (st : St W) :
  snd (readCentralDirectory eocd st)
  = after_request
      (GetRange (url (this st)) (centralDirOffset eocd)
         (centralDirOffset eocd + centralDirSize eocd - Num 1)%js) st.
Proof.
  rewrite readCentralDirectory_unfold.
  pose proof (fetchRange_state (centralDirOffset eocd)
                (centralDirOffset eocd + centralDirSize eocd - Num 1)%js st)
    as Hst.
  destruct (fetchRange _ _ st) as [[buffer|x] st']; exact Hst.
Qed.

Lemma readTableOfContents_ok_inv (st : St W) (es : list FileEntry) :
  fst (readTableOfContents st) = Ok es ->
  exists eocd st1 buffer,
    findEOCD st = (Ok eocd, st1)
    /\ fst (fetchRange (centralDirOffset eocd)
              (centralDirOffset eocd + centralDirSize eocd - Num 1)%js st1)
       = Ok buffer
    /\ es = map processEntry
              (readEntries buffer (iterations (totalEntryCount eocd)) 0).
Proof.
  rewrite readTableOfContents_unfold.
  destruct (findEOCD st) as [[eocd|x] st1] eqn:Ef; [|discriminate].
  rewrite readCentralDirectory_unfold.
  destruct (fetchRange _ _ st1) as [[buffer|x] st2] eqn:Er; [|discriminate].
  cbn [fst]. intros Hes. exists eocd, st1, buffer.
  split; [reflexivity|]. split; [rewrite Er; reflexivity|]. congruence.
Qed.

Lemma readTableOfContents_entries_inv (st : St W) (es : list FileEntry) :
  fst (readTableOfContents st) = Ok es ->
  len es <= 65535
  /\ Forall
       (fun e =>
          exists l,
            localHeaderOffset e = Num l /\ 0 <= l < 2 ^ 32
            /\ (isDirectory e = true ->
                dataOffset e = None /\ fileNameLength e = None
                /\ isImage e = Some false)
            /\ (isDirectory e = false ->
                dataOffset e = Some (Num (l + 30 + len (fileName e)))
                /\ fileNameLength e = Some (Num (len (fileName e)))
                /\ extraFieldLength e = Some (Num 0)
                /\ unresolved e = false))
       es.
Proof.
  intros Hes. apply readTableOfContents_ok_inv in Hes.
  destruct Hes as (eocd & st1 & buffer & Hf & _ & ->).
  assert (Hf' : fst (findEOCD st) = Ok eocd) by (rewrite Hf; reflexivity).
  destruct (findEOCD_ok_inv st eocd Hf') as (_ & Hit & _).
  split.
  - unfold len. rewrite length_map.
    destruct (readEntries_bounds buffer (iterations (totalEntryCount eocd)) 0)
      as [Hn _]; lia.
  - apply Forall_map. apply readEntries_Forall.
    intros o e next Hp. apply parseCentralDirEntry_inv in Hp.
    destruct Hp as (fnl & efl & cl & csz & usz & lho & _ & _ & _ & _ & _ & _
                    & Hlho & _ & _ & _ & Hl & Hn1 & Hn2 & Hd & Hdir & Himg & _).
    apply getUint32_range in Hlho.
    exists lho. unfold processEntry.
    destruct (isDirectory e) eqn:Edir.
    + split; [exact Hl|]. split; [exact Hlho|]. split.
      * intros _. split; [exact Hd|]. split; [exact Hn1|].
        rewrite Himg. reflexivity.
      * rewrite Edir. discriminate.
    + cbn [calculateFileDataOffset localHeaderOffset isDirectory dataOffset
           fileNameLength extraFieldLength fileName].
      split; [exact Hl|]. split; [exact Hlho|]. split.
      * rewrite Edir. discriminate.
      * intros _. rewrite Hl. cbn [num_add]. unfold len.
        split; [do 2 f_equal; lia|]. split; [reflexivity|].
        split; [reflexivity|].
        unfold unresolved. cbn [dataOffset calculateFileDataOffset].
        rewrite Hl. cbn [num_add falsy]. apply Z.eqb_neq. lia.
Qed.

(** X13.  Every listing that [readTableOfContents] returns has at most
    65535 entries; each has a 32-bit local header offset [l]; a directory
    entry has no data offset and is not an image; every other entry carries
    the data offset [l + 30 + fileName.length], that length as its
    [fileNameLength] and 0 as its [extraFieldLength], and is never taken
    for unresolved by [extractFile]. *)
Theorem readTableOfContents_entries (st : St W) (es : list FileEntry) :
  fst (readTableOfContents st) = Ok es ->
  len es <= 65535
  /\ Forall
       (fun e =>
          exists l,
            localHeaderOffset e = Num l /\ 0 <= l < 2 ^ 32
            /\ (isDirectory e = true ->
                dataOffset e = None /\ fileNameLength e = None
                /\ isImage e = Some false)
            /\ (isDirectory e = false ->
                dataOffset e = Some (Num (l + 30 + len (fileName e)))
                /\ fileNameLength e = Some (Num (len (fileName e)))
                /\ extraFieldLength e = Some (Num 0)
                /\ unresolved e = false))
       es.
Proof. exact (readTableOfContents_entries_inv st es). Qed.

Lemma readTableOfContents_trace (st : St W) :
  exists t,
    trace (snd (readTableOfContents st)) = trace st ++ t
    /\ (head_requests t <= 1)%nat
    /\ (range_reads t <= 2)%nat
    /\ (falsy (fileSize (this st)) = false -> head_requests t = 0%nat)
    /\ (forall es, fst (readTableOfContents st) = Ok es ->
                   range_reads t = 2%nat)
    /\ (forall r t', t = r :: t' -> head_requests t' = 0%nat).
Proof.
  assert (Hsearch : forall st1 : St W,
             exists t1,
               trace (snd (match findEOCD_search st1 with
                           | (Ok eocd, st2) =>
                               match readCentralDirectory eocd st2 with
                               | (Ok entries, st3) =>
                                   (Ok (map processEntry entries), st3)
                               | (Err x, st3) => (Err x, st3)
                               end
                           | (Err x, st2) => (Err x, st2)
                           end)) = trace st1 ++ t1
               /\ head_requests t1 = 0%nat
               /\ (1 <= range_reads t1 <= 2)%nat
               /\ (forall es,
                      fst (match findEOCD_search st1 with
                           | (Ok eocd, st2) =>
                               match readCentralDirectory eocd st2 with
                               | (Ok entries, st3) =>
                                   (Ok (map processEntry entries), st3)
                               | (Err x, st3) => (Err x, st3)
                               end
                           | (Err x, st2) => (Err x, st2)
                           end) = Ok es -> range_reads t1 = 2%nat)).
  { intros st1. pose proof (findEOCD_search_outcome st1) as [Hs1 _].
    cbn zeta in Hs1.
    destruct (findEOCD_search st1) as [[eocd|x] st2]; cbn [snd] in Hs1;
      subst st2.
    - pose proof (readCentralDirectory_state eocd
                    (after_request
                       (GetRange (url (this st1))
                          (fileSize (this st1)
                           - Math_min (Num 65557) (fileSize (this st1)))%js
                          (fileSize (this st1) - Num 1)%js) st1)) as Hs2.
      destruct (readCentralDirectory eocd _) as [[entries|x] st3];
        cbn [snd] in Hs2; subst st3; cbn [snd fst after_request trace];
        eexists; (split; [rewrite <- app_assoc; reflexivity|]);
        cbn; repeat split; (lia || discriminate || reflexivity).
    - cbn [snd fst after_request trace]. eexists.
      split; [reflexivity|]. cbn. repeat split; (lia || discriminate). }
  rewrite readTableOfContents_unfold, findEOCD_unfold.
  destruct (falsy (fileSize (this st))) eqn:Efalsy.
  - pose proof (getFileSize_state st) as [Hg _].
    destruct (getFileSize st) as [[n|x] st1]; cbn [snd] in Hg.
    + destruct (Hsearch st1) as (t1 & Ht & Hh & Hr & Hok).
      exists (Head (url (this st)) :: t1).
      rewrite Ht, Hg, <- app_assoc. split; [reflexivity|].
      unfold head_requests, range_reads in *. cbn.
      repeat split; try lia; try discriminate.
      * intros es Hes. apply Hok in Hes. lia.
      * intros r t' [= _ <-]. exact Hh.
    + exists [Head (url (this st))]. cbn [snd fst]. split; [exact Hg|].
      cbn. repeat split; try lia; try discriminate.
      intros r t' [= _ <-]. reflexivity.
  - destruct (Hsearch st) as (t1 & Ht & Hh & Hr & Hok).
    exists t1. split; [exact Ht|]. split; [lia|]. split; [lia|].
    split; [intros _; exact Hh|]. split; [exact Hok|].
    intros r t' ->. unfold head_requests in *. cbn [filter] in Hh.
    destruct (negb (is_range_read r)); cbn [List.length] in Hh;
      [lia | exact Hh].
Qed.

(** X14.  Whatever the server answers, a call of [readTableOfContents]
    issues at most one size query and at most two range reads, in that
    order; it issues no size query when the cached length is truthy, and
    exactly two range reads when it succeeds. *)
Theorem readTableOfContents_requests (st : St W) :
  exists t,
    trace (snd (readTableOfContents st)) = trace st ++ t
    /\ (head_requests t <= 1)%nat
    /\ (range_reads t <= 2)%nat
    /\ (falsy (fileSize (this st)) = false -> head_requests t = 0%nat)
    /\ (forall es, fst (readTableOfContents st) = Ok es ->
                   range_reads t = 2%nat)
    /\ (forall r t', t = r :: t' -> head_requests t' = 0%nat).
Proof. exact (readTableOfContents_trace st). Qed.

(** ** Names of ASCII characters *)

Lemma utf8_decode_ascii (bytes : list N) :
  Forall (fun b => (b < 0x80)%N) bytes -> utf8_decode None bytes = bytes.
Proof.
  induction 1 as [|b bytes Hb _ IH]; [reflexivity|].
  cbn [utf8_decode]. unfold utf8_lead.
  replace (b <=? 0x7F)%N with true by (symmetry; apply N.leb_le; lia).
  rewrite IH. reflexivity.
Qed.

Lemma flat_map_utf16_units_ascii (cps : list N) :
  Forall (fun b => (b < 0x80)%N) cps -> flat_map utf16_units cps = cps.
Proof.
  induction 1 as [|b cps Hb _ IH]; [reflexivity|].
  change (flat_map utf16_units (b :: cps))
    with (utf16_units b ++ flat_map utf16_units cps).
  rewrite IH. unfold utf16_units.
  replace (b <? 0x10000)%N with true by (symmetry; apply N.ltb_lt; lia).
  reflexivity.
Qed.

Lemma TextDecoder_decode_ascii (bytes : list byte) :
  ascii_name bytes ->
  TextDecoder_decode bytes = map Byte.to_N bytes
  /\ Forall (fun c => (c < 0x80)%N) (TextDecoder_decode bytes).
Proof.
  intros Ha.
  assert (Hn : Forall (fun b => (b < 0x80)%N) (map Byte.to_N bytes)).
  { apply Forall_map. exact Ha. }
  assert (Hd : TextDecoder_decode bytes = map Byte.to_N bytes).
  { unfold TextDecoder_decode. rewrite utf8_decode_ascii by exact Hn.
    assert (Hs : strip_bom (map Byte.to_N bytes) = map Byte.to_N bytes).
    { destruct Hn as [|c cs Hc _]; [reflexivity|]. unfold strip_bom.
      replace (c =? 0xFEFF)%N with false
        by (symmetry; apply N.eqb_neq; lia).
      reflexivity. }
    rewrite Hs. apply flat_map_utf16_units_ascii. exact Hn. }
  split; [exact Hd | rewrite Hd; exact Hn].
Qed.

(** X15.  When the name of a header lies inside the buffer and is made of
    ASCII bytes, the decoded name has as many code units as the header
    announces bytes, and the resolved data offset is the local header
    offset plus 30 plus the announced name length. *)
Theorem resolved_offset_of_ascii_name
        (buffer : list byte) (offset : Z) (e : FileEntry) (next fnl : Z) :
  parseCentralDirEntry buffer offset = Ok (e, next) ->
  getUint16 buffer (offset + 28) = Ok fnl ->
  offset + 46 + fnl <= len buffer ->
  ascii_name (slice buffer (offset + 46) (offset + 46 + fnl)) ->
  exists l,
    localHeaderOffset e = Num l
    /\ len (fileName e) = fnl
    /\ utf8_byte_length (fileName e) = fnl
    /\ dataOffset (calculateFileDataOffset e) = Some (Num (l + 30 + fnl)).
Proof.
  intros Hp Hfnl Hin Hascii.
  destruct (parseCentralDirEntry_ok_bounds buffer offset e next Hp)
    as (Ho & _ & _).
  apply parseCentralDirEntry_inv in Hp.
  destruct Hp as (fnl' & efl & cl & csz & usz & lho & _ & Hfnl' & _ & _ & _
                  & _ & _ & Hname & _ & _ & Hl & _).
  assert (fnl' = fnl) by congruence. subst fnl'.
  apply getUint16_range in Hfnl.
  destruct (TextDecoder_decode_ascii _ Hascii) as [Hd Hall].
  rewrite <- Hname in Hd, Hall.
  assert (Hlen : len (fileName e) = fnl).
  { rewrite Hd. unfold len. rewrite length_map.
    change (Z.of_nat (List.length (slice buffer (offset + 46)
                                     (offset + 46 + fnl))))
      with (len (slice buffer (offset + 46) (offset + 46 + fnl))).
    rewrite slice_length_le; lia. }
  exists lho. split; [exact Hl|]. split; [exact Hlen|].
  rewrite utf8_byte_length_ascii by exact Hall.
  split; [exact Hlen|].
  rewrite calculateFileDataOffset_dataOffset, Hl. cbn [num_add].
  unfold len in Hlen. rewrite Hlen. do 2 f_equal. lia.
Qed.

(** ** [extractFile] *)

Lemma encodeLocalHeaderWith_split (r : CDRecord) (extra : list byte) :
  exists fixed,
    encodeLocalHeaderWith r extra = fixed ++ cd_name r ++ extra
    /\ len fixed = 30.
Proof.
  exists ([x50; x4b; x03; x04]
          ++ le16 (cd_versionNeeded r) ++ le16 (cd_flags r)
          ++ le16 (cd_method r) ++ le16 (cd_time r) ++ le16 (cd_date r)
          ++ le32 (cd_crc32 r)
          ++ le32 (cd_compressedSize r) ++ le32 (cd_uncompressedSize r)
          ++ le16 (len (cd_name r)) ++ le16 (len extra)).
  split.
  - unfold encodeLocalHeaderWith. rewrite <- !app_assoc. reflexivity.
  - reflexivity.
Qed.

Lemma encodeLocalHeader_no_extra (r : CDRecord) :
  encodeLocalHeader r = encodeLocalHeaderWith r [].
Proof.
  unfold encodeLocalHeader, encodeLocalHeaderWith.
  rewrite (app_nil_r (cd_name r)). reflexivity.
Qed.

Lemma resolveIfNeeded_listed (e : FileEntry) (l : Z) :
  dataOffset e = None -> localHeaderOffset e = Num l -> 0 <= l ->
  resolveIfNeeded (processEntry e) = calculateFileDataOffset e.
Proof.
  intros Hd Hl Hl0.
  assert (He : resolveIfNeeded e = calculateFileDataOffset e)
    by (unfold resolveIfNeeded, unresolved; rewrite Hd; reflexivity).
  unfold processEntry. destruct (isDirectory e); [exact He|].
  unfold resolveIfNeeded, unresolved.
  rewrite calculateFileDataOffset_dataOffset, Hl. cbn [num_add falsy].
  replace (l + 30 + Z.of_nat (List.length (fileName e)) + 0 =? 0) with false
    by (symmetry; apply Z.eqb_neq; lia).
  reflexivity.
Qed.

(** The bytes that the extraction of a listed entry returns, when its local
    header carries the extra field [extra]. *)
Lemma extractFile_bytes (a : Archive) (r : CDRecord)
      (pre extra data post : list byte) (st : St W) :
  serves (archive_bytes a) ->
  ar_body a = pre ++ encodeLocalHeaderWith r extra ++ data ++ post ->
  cd_localHeaderOffset r = len pre ->
  cd_compressedSize r = len data ->
  1 <= len data ->
  ascii_name (cd_name r) ->
  exists blob,
    fst (extractFile (processEntry (entry_of_record r)) st)
    = Ok (blob, calculateFileDataOffset (entry_of_record r))
    /\ blob_bytes blob = firstn (List.length data) (extra ++ data).
Proof.
  intros Hs Hbody Hlho Hsize Hdata Hascii.
  pose proof (len_nonneg pre) as Hpre.
  destruct (encodeLocalHeaderWith_split r extra) as (fixed & Hsplit & Hfixed).
  destruct (TextDecoder_decode_ascii _ Hascii) as [Hdec _].
  assert (Hnamelen : Z.of_nat (List.length (TextDecoder_decode (cd_name r)))
                     = len (cd_name r))
    by (rewrite Hdec, length_map; reflexivity).
  set (e0 := entry_of_record r).
  assert (Hres : resolveIfNeeded (processEntry e0) = calculateFileDataOffset e0).
  { apply (resolveIfNeeded_listed e0 (len pre)); [reflexivity| |lia].
    subst e0. cbn [entry_of_record localHeaderOffset]. rewrite Hlho.
    reflexivity. }
  rewrite extractFile_unfold. cbn zeta. rewrite Hres.
  rewrite calculateFileDataOffset_dataOffset.
  assert (Hbytes : archive_bytes a
                   = (pre ++ fixed ++ cd_name r)
                     ++ (extra ++ data)
                     ++ (post ++ central_directory a ++ encodeEOCD a
                         ++ ar_comment a)).
  { unfold archive_bytes. rewrite Hbody, Hsplit, <- !app_assoc. reflexivity. }
  assert (Hd : len (pre ++ fixed ++ cd_name r)
               = len pre + 30 + len (cd_name r))
    by (rewrite !len_app; lia).
  subst e0.
  cbn [entry_of_record localHeaderOffset fileName compressedSize
       calculateFileDataOffset number_of].
  rewrite Hlho, Hsize, Hnamelen. cbn [num_add num_sub].
  replace (len pre + 30 + len (cd_name r) + 0)
    with (len (pre ++ fixed ++ cd_name r)) by lia.
  rewrite (fetchRange_served (archive_bytes a)).
  - eexists. split; [reflexivity|]. cbn [blob_bytes].
    rewrite Hbytes.
    replace (len (pre ++ fixed ++ cd_name r) + len data - 1 + 1)
      with (len (pre ++ fixed ++ cd_name r) + len data) by lia.
    rewrite <- (Z.add_0_r (len (pre ++ fixed ++ cd_name r))) at 1.
    rewrite slice_app_skip by lia.
    unfold slice, len. rewrite Z.sub_0_r, Nat2Z.id. cbn [Z.to_nat skipn].
    rewrite firstn_app.
    replace (List.length data - List.length (extra ++ data))%nat with O
      by (rewrite length_app; lia).
    cbn [firstn]. apply app_nil_r.
  - exact Hs.
  - pose proof (len_nonneg (cd_name r)). pose proof (len_nonneg fixed). lia.
  - rewrite Hbytes, !len_app.
    pose proof (len_nonneg extra). pose proof (len_nonneg post).
    pose proof (len_nonneg (central_directory a)).
    pose proof (len_nonneg (encodeEOCD a)).
    pose proof (len_nonneg (ar_comment a)). lia.
Qed.

(** X16.  Round trip of the stored entry: when the body of a served
    archive holds, at the local header offset of a header, the local header
    without extra field followed by the data of the entry (at least one
    byte, name of ASCII characters), extracting the listed entry returns
    exactly those data. *)
Theorem extractFile_returns_file_data
        (a : Archive) (r : CDRecord) (pre data post : list byte) (st : St W) :
  serves (archive_bytes a) ->
  ar_body a = pre ++ encodeLocalHeader r ++ data ++ post ->
  cd_localHeaderOffset r = len pre ->
  cd_compressedSize r = len data ->
  1 <= len data ->
  ascii_name (cd_name r) ->
  exists blob,
    fst (extractFile (processEntry (entry_of_record r)) st)
    = Ok (blob, calculateFileDataOffset (entry_of_record r))
    /\ blob_bytes blob = data.
Proof.
  intros Hs Hbody Hlho Hsize Hdata Hascii.
  rewrite encodeLocalHeader_no_extra in Hbody.
  destruct (extractFile_bytes a r pre [] data post st Hs Hbody Hlho Hsize
              Hdata Hascii) as (blob & Hb & Hbytes).
  exists blob. split; [exact Hb|]. rewrite Hbytes. cbn [app].
  apply firstn_all.
Qed.

(** X17.  The limitation of the offset heuristic: when the local header
    carries an extra field, the extraction starts at the extra field, not
    at the data: it returns the first [compressedSize] bytes of the extra
    field followed by the data, which begin with the extra field itself
    when that is not longer than the data. *)
Theorem extractFile_starts_at_extra_field
        (a : Archive) (r : CDRecord) (pre extra data post : list byte)
        (st : St W) :
  serves (archive_bytes a) ->
  ar_body a = pre ++ encodeLocalHeaderWith r extra ++ data ++ post ->
  cd_localHeaderOffset r = len pre ->
  cd_compressedSize r = len data ->
  1 <= len data ->
  ascii_name (cd_name r) ->
  exists blob,
    fst (extractFile (processEntry (entry_of_record r)) st)
    = Ok (blob, calculateFileDataOffset (entry_of_record r))
    /\ blob_bytes blob = firstn (List.length data) (extra ++ data)
    /\ (len extra <= len data ->
        blob_bytes blob
        = extra ++ firstn (List.length data - List.length extra) data).
Proof.
  intros Hs Hbody Hlho Hsize Hdata Hascii.
  destruct (extractFile_bytes a r pre extra data post st Hs Hbody Hlho Hsize
              Hdata Hascii) as (blob & Hb & Hbytes).
  exists blob. split; [exact Hb|]. split; [exact Hbytes|].
  intros Hle. rewrite Hbytes, firstn_app. f_equal.
  apply firstn_all2. unfold len in Hle. lia.
Qed.

Lemma resolveIfNeeded_keeps (e : FileEntry) :
  fileName (resolveIfNeeded e) = fileName e
  /\ compressedSize (resolveIfNeeded e) = compressedSize e
  /\ localHeaderOffset (resolveIfNeeded e) = localHeaderOffset e
  /\ isDirectory (resolveIfNeeded e) = isDirectory e
  /\ isImage (resolveIfNeeded e) = isImage e.
Proof.
  unfold resolveIfNeeded. destruct (unresolved e); repeat split.
Qed.

(** X18.  For any entry, [extractFile] issues exactly one request, a range
    read of [compressedSize] bytes from the data offset of the entry once
    resolved; it fails exactly when that read fails, with the same
    exception; when it succeeds the blob holds the body received, its kind
    is one of image/png, image/jpeg and none, and the entry is returned
    resolved.  For an entry without data offset the read starts at
    [localHeaderOffset + 30 + fileName.length]. *)
Theorem extractFile_outcome (e : FileEntry) (st : St W) :
  let d := number_of (dataOffset (resolveIfNeeded e)) in
  let end_ := (d + compressedSize e - Num 1)%js in
  snd (extractFile e st) = after_request (GetRange (url (this st)) d end_) st
  /\ (forall x,
         fst (extractFile e st) = Err x
         <-> fst (fetchRange d end_ st) = Err x)
  /\ (forall blob e2,
         fst (extractFile e st) = Ok (blob, e2) ->
         e2 = resolveIfNeeded e
         /\ fst (fetchRange d end_ st) = Ok (blob_bytes blob)
         /\ (blob_type blob = "image/png"%string
             \/ blob_type blob = "image/jpeg"%string
             \/ blob_type blob = EmptyString))
  /\ (dataOffset e = None ->
      d = (localHeaderOffset e + Num 30
           + Num (Z.of_nat (List.length (fileName e))) + Num 0)%js).
Proof.
  cbn zeta. rewrite extractFile_unfold. cbn zeta.
  destruct (resolveIfNeeded_keeps e) as (Hn & Hc & _).
  rewrite Hc, Hn.
  set (d := number_of (dataOffset (resolveIfNeeded e))).
  pose proof (fetchRange_state d (d + compressedSize e - Num 1)%js st) as Hst.
  destruct (fetchRange d (d + compressedSize e - Num 1)%js st)
    as [[buffer|x0] st'] eqn:Ef; cbn [fst snd] in *; subst st'.
  - split; [reflexivity|]. split; [intros x; split; discriminate|]. split.
    + intros blob e2 Hok.
      assert (Hpair : forall (p q : Blob * FileEntry), Ok p = Ok q -> p = q)
        by (intros p q Hpq; congruence).
      apply Hpair in Hok.
      pose proof (f_equal fst Hok) as Hb. pose proof (f_equal snd Hok) as He2.
      cbn [fst snd] in Hb, He2. subst blob e2. cbn [blob_bytes blob_type].
      split; [reflexivity|]. split; [reflexivity|].
      destruct (endsWith (toLowerCase (fileName e)) (js ".png")); [auto|].
      destruct (endsWith (toLowerCase (fileName e)) (js ".jpg")
                || endsWith (toLowerCase (fileName e)) (js ".jpeg")); auto.
    + intros Hd. subst d. unfold resolveIfNeeded, unresolved. rewrite Hd.
      reflexivity.
  - split; [reflexivity|]. split; [intros x; split; intros Hx; congruence|].
    split; [intros blob e2 Hok; discriminate|].
    intros Hd. subst d. unfold resolveIfNeeded, unresolved. rewrite Hd.
    reflexivity.
Qed.

(** X19.  The decoder and the extractor agree on what an image is: for an
    entry built by the decoder that is not a directory, resolved or not,
    the blob that [extractFile] returns has an image kind exactly when the
    entry is marked as an image. *)
Theorem extractFile_kind_agrees_with_isImage
        (buffer : list byte) (offset : Z) (e : FileEntry) (next : Z)
        (st : St W) (e1 : FileEntry) (blob : Blob) (e2 : FileEntry) :
  parseCentralDirEntry buffer offset = Ok (e, next) ->
  isDirectory e = false ->
  e1 = e \/ e1 = processEntry e ->
  fst (extractFile e1 st) = Ok (blob, e2) ->
  (isImage e = Some true <-> blob_type blob <> EmptyString)
  /\ isImage e2 = isImage e.
Proof.
  intros Hp Hdir He1 Hok.
  apply parseCentralDirEntry_inv in Hp.
  destruct Hp as (fnl & efl & cl & csz & usz & lho & _ & _ & _ & _ & _ & _
                  & _ & _ & _ & _ & _ & _ & _ & _ & _ & Himg & _).
  rewrite Hdir in Himg. cbn [negb andb] in Himg. unfold is_image_name in Himg.
  assert (Hname : fileName e1 = fileName e /\ isImage e1 = isImage e).
  { destruct He1 as [->| ->]; [split; reflexivity|].
    unfold processEntry. rewrite Hdir. split; reflexivity. }
  destruct Hname as [Hname Hi1].
  rewrite extractFile_unfold in Hok. cbn zeta in Hok.
  destruct (resolveIfNeeded_keeps e1) as (Hn & _ & _ & _ & Hi).
  rewrite Hn, Hname in Hok.
  destruct (fetchRange _ _ st) as [[body|x] st']; [|discriminate].
  cbn [fst] in Hok.
  assert (Hpair : forall (p q : Blob * FileEntry), Ok p = Ok q -> p = q)
    by (intros p q Hpq; congruence).
  apply Hpair in Hok.
  pose proof (f_equal fst Hok) as Hb. pose proof (f_equal snd Hok) as He2.
  cbn [fst snd] in Hb, He2. subst blob e2. cbn [blob_bytes blob_type].
  split; [|rewrite Hi, Hi1; reflexivity].
  rewrite Himg.
  destruct (endsWith (toLowerCase (fileName e)) (js ".png"));
    destruct (endsWith (toLowerCase (fileName e)) (js ".jpg"));
    destruct (endsWith (toLowerCase (fileName e)) (js ".jpeg"));
    cbn; split; intros Hx; try reflexivity; try discriminate;
    try congruence.
Qed.

(** ** [getFileSize] *)

(** X20.  A size query issues exactly one [HEAD] request.  It fails when
    the request fails, when the status is not a success, and when the
    content-length header is missing or empty, and then leaves the reader
    as it was; otherwise it succeeds with whatever [parseInt] makes of the
    header, [NaN] included, and caches that value. *)
Theorem getFileSize_outcome (st : St W) :
  let r := fst (fetch (Head (url (this st))) (world st)) in
  trace (snd (getFileSize st)) = trace st ++ [Head (url (this st))]
  /\ match fst (getFileSize st) with
     | Ok n =>
         exists resp s,
           r = Some resp /\ resp_ok resp = true
           /\ resp_content_length resp = Some s /\ s <> EmptyString
           /\ n = parseInt10 s
           /\ this (snd (getFileSize st))
              = {| url := url (this st); fileSize := n |}
     | Err x =>
         this (snd (getFileSize st)) = this st
         /\ ((r = None /\ x = FetchFailed)
             \/ (exists resp,
                    r = Some resp /\ resp_ok resp = false
                    /\ x = HttpError (resp_status resp))
             \/ (exists resp,
                    r = Some resp /\ resp_ok resp = true
                    /\ (resp_content_length resp = None
                        \/ resp_content_length resp = Some EmptyString)
                    /\ x = NoContentLength))
     end.
Proof.
  cbn zeta. split; [apply getFileSize_state|].
  rewrite getFileSize_unfold. cbn zeta.
  destruct (fst (fetch (Head (url (this st))) (world st))) as [resp|].
  - destruct (resp_ok resp) eqn:Eok.
    + destruct (resp_content_length resp) as [[|c s]|] eqn:Ecl;
        cbn [fst snd this].
      * split; [reflexivity|]. right. right. exists resp. auto.
      * exists resp, (String c s).
        repeat split; try assumption; try reflexivity. discriminate.
      * split; [reflexivity|]. right. right. exists resp. auto.
    + cbn [fst snd]. split; [reflexivity|]. right. left. exists resp. auto.
  - cbn [fst snd]. split; [reflexivity|]. left. auto.
Qed.

(** ** The page *)

Lemma getFileSize_new_reader (u : string) (w : W) :
  trace (snd (getFileSize
                {| this := new_ZipReader u; world := w; trace := [] |}))
  = [Head u]
  /\ url (this (snd (getFileSize
                       {| this := new_ZipReader u; world := w;
                          trace := [] |}))) = u.
Proof.
  destruct (getFileSize_state
              {| this := new_ZipReader u; world := w; trace := [] |})
    as [Ht Hu].
  split; [exact Ht | exact Hu].
Qed.

(** X21.  Whatever the server answers, [getSzi] starts with a size query,
    issues at most one more, and none when the size first reported is
    truthy, and at most two range reads; a second size query, when there
    is one, comes before every range read.  It shows entries only when no
    exception was thrown, and then exactly two range reads were issued. *)
Theorem getSzi_requests (u : string) (w : W) :
  exists t,
    trace (snd (getSzi u w)) = Head u :: t
    /\ (head_requests t <= 1)%nat
    /\ (range_reads t <= 2)%nat
    /\ (falsy (pg_fileSize (fst (getSzi u w))) = false ->
        head_requests t = 0%nat)
    /\ (pg_error (fst (getSzi u w)) = None -> range_reads t = 2%nat)
    /\ (pg_error (fst (getSzi u w)) <> None ->
        pg_entries (fst (getSzi u w)) = [])
    /\ (forall r t', t = r :: t' -> head_requests t' = 0%nat).
Proof.
  unfold getSzi. cbn zeta.
  destruct (getFileSize_new_reader u w) as [Ht Hu].
  pose proof (getFileSize_result
                {| this := new_ZipReader u; world := w; trace := [] |})
    as Hres.
  destruct (getFileSize {| this := new_ZipReader u; world := w; trace := [] |})
    as [[n|x] st1] eqn:Eg; cbn [snd] in Ht, Hu.
  - destruct (Hres n st1 eq_refl) as (Hn & _).
    destruct (readTableOfContents_trace st1)
      as (t & Htr & Hh & Hr & Hfalsy & Hok & Hfirst).
    rewrite Hn in Hfalsy.
    destruct (readTableOfContents st1) as [[es|x] st2] eqn:Er;
      cbn [fst snd pg_fileSize pg_error pg_entries] in *;
      exists t; (split; [rewrite Htr, Ht; reflexivity|]);
      (split; [exact Hh|]); (split; [exact Hr|]);
      (split; [exact Hfalsy|]); (split; [|split; [|exact Hfirst]]).
    + intros _. apply (Hok es). reflexivity.
    + intros Hne. congruence.
    + discriminate.
    + reflexivity.
  - cbn [fst snd pg_fileSize pg_error pg_entries]. exists [].
    split; [exact Ht|]. cbn. repeat split; try lia; try discriminate.
Qed.


(** X23.  In the table that the page builds from a listing, a directory
    entry gets no button, so the page never extracts a directory; every
    entry that gets a button is resolved already, so that the extraction
    the button starts leaves the entry as it is and reads from its data
    offset. *)
Theorem page_extracts_resolved_files_only
        (st : St W) (es : list FileEntry) :
  fst (readTableOfContents st) = Ok es ->
  Forall
    (fun e =>
       (isDirectory e = true -> entry_action e = NoAction)
       /\ (entry_action e <> NoAction ->
           isDirectory e = false
           /\ resolveIfNeeded e = e
           /\ exists d, dataOffset e = Some (Num d) /\ 30 <= d))
    es.
Proof.
  intros Hes. apply readTableOfContents_entries_inv in Hes.
  destruct Hes as [_ Hall]. revert Hall. apply Forall_impl.
  intros e (l & Hl & Hlb & Hdir & Hfile).
  pose proof (len_nonneg (fileName e)) as Hn.
  destruct (isDirectory e) eqn:Ed.
  - destruct (Hdir eq_refl) as (_ & _ & Himg).
    assert (Ha : entry_action e = NoAction)
      by (unfold entry_action; rewrite Himg, Ed; reflexivity).
    split; [intros _; exact Ha|]. intros Hne. congruence.
  - destruct (Hfile eq_refl) as (Hd & _ & _ & Hu).
    split; [discriminate|]. intros _. split; [reflexivity|].
    split; [unfold resolveIfNeeded; rewrite Hu; reflexivity|].
    eexists. split; [exact Hd|]. lia.
Qed.

End Further.

(** ** Witnesses of the further properties *)

Lemma extra_field_host_serves :
  serves (H := extra_field_host) (archive_bytes extra_field_archive).
Proof.
  apply static_host_serves; [discriminate | vm_compute; reflexivity].
Qed.


Lemma parseEOCD_outcome_witness :
  exists e, parseEOCD (encodeEOCD example_archive) = Ok e.
Proof.
  apply (proj1 (proj2 (parseEOCD_outcome (encodeEOCD example_archive)))).
  - vm_compute. discriminate.
  - vm_compute. reflexivity.
Defined.

Lemma parseEOCD_round_trip_witness :
  parseEOCD (encodeEOCD example_archive ++ [x00])
  = Ok {| diskNumber := Num 0;
          centralDirDisk := Num 0;
          diskEntryCount := Num (len (ar_records example_archive));
          totalEntryCount := Num (len (ar_records example_archive));
          centralDirSize := Num (len (central_directory example_archive));
          centralDirOffset := Num (len (ar_body example_archive));
          commentLength := Num (len (ar_comment example_archive));
          absoluteOffset := Num 0 |}.
Proof.
  apply (parseEOCD_round_trip example_archive [x00]);
    vm_compute; reflexivity.
Defined.

Lemma parseCentralDirEntry_outcome_witness :
  exists e next,
    parseCentralDirEntry (H := example_host)
      (central_directory example_archive) 48 = Ok (e, next).
Proof.
  apply (proj1 (proj2 (parseCentralDirEntry_outcome (H := example_host)
                         (central_directory example_archive) 48))).
  - vm_compute. reflexivity.
  - vm_compute. discriminate.
Defined.

Lemma parseCentralDirEntry_advances_witness :
  48 + 46 <= 101 <= 48 + 46 + 3 * 65535.
Proof.
  refine (proj1 (parseCentralDirEntry_advances (H := example_host)
                   (central_directory example_archive) 48
                   (entry_of_record (H := example_host) example_file) 101
                   _)).
  vm_compute. reflexivity.
Defined.

Lemma parseCentralDirEntry_round_trip_witness :
  parseCentralDirEntry (H := example_host)
    (encodeCDRecord example_dir ++ encodeCDRecord example_file ++ [x00])
    (len (encodeCDRecord example_dir))
  = Ok (entry_of_record (H := example_host) example_file,
        len (encodeCDRecord example_dir)
        + len (encodeCDRecord example_file)).
Proof.
  refine (proj1 (parseCentralDirEntry_round_trip (H := example_host)
                   (encodeCDRecord example_dir) [x00] example_file _)).
  unfold cd_wf. repeat split; vm_compute; congruence.
Defined.

Lemma readEntries_encoded_directory_witness :
  readEntries (H := example_host) (central_directory example_archive) 5 0
  = map (entry_of_record (H := example_host)) (ar_records example_archive).
Proof.
  refine (proj2 (readEntries_encoded_directory (H := example_host)
                   example_archive 5 _) _).
  - repeat constructor; vm_compute; congruence.
  - vm_compute. repeat constructor.
Defined.

Lemma readCentralDirectory_fails_only_with_the_read_witness :
  (List.length
     (map (entry_of_record (H := example_host)) (ar_records example_archive))
   <= 2)%nat.
Proof.
  refine (proj1 (proj2 (proj2
    (readCentralDirectory_fails_only_with_the_read (H := example_host)
       {| diskNumber := Num 0; centralDirDisk := Num 0;
          diskEntryCount := Num 2; totalEntryCount := Num 2;
          centralDirSize := Num 101; centralDirOffset := Num 72;
          commentLength := Num 0; absoluteOffset := Num 173 |}
       (initial "u" tt)))
    (map (entry_of_record (H := example_host)) (ar_records example_archive))
    _)).
  vm_compute. reflexivity.
Defined.

Lemma findEOCD_result_witness :
  Z.of_nat (iterations (Num 2)) <= 65535.
Proof.
  refine (proj1 (proj2
    (findEOCD_result (H := example_host) (initial "u" tt)
       {| diskNumber := Num 0; centralDirDisk := Num 0;
          diskEntryCount := Num 2; totalEntryCount := Num 2;
          centralDirSize := Num 101; centralDirOffset := Num 72;
          commentLength := Num 0; absoluteOffset := Num 173 |}
       _))).
  vm_compute. reflexivity.
Defined.

Lemma findEOCD_short_window_witness :
  fst (findEOCD (H := short_host) (initial "u" tt)) = Err EOCDNotFound.
Proof.
  refine (findEOCD_short_window (H := short_host) (initial "u" tt)
            (snd (getFileSize (H := short_host) (initial "u" tt)))
            [x50; x4b] _ _ _).
  - right. split; [reflexivity|]. exists (Num 2). vm_compute. reflexivity.
  - vm_compute. reflexivity.
  - vm_compute. reflexivity.
Defined.


Lemma readTableOfContents_entries_witness :
  len (expected_listing (H := example_host) example_archive) <= 65535.
Proof.
  refine (proj1 (readTableOfContents_entries (H := example_host)
                   (initial "u" tt)
                   (expected_listing (H := example_host) example_archive)
                   _)).
  vm_compute. reflexivity.
Defined.

Lemma readTableOfContents_requests_witness :
  exists t,
    trace (snd (readTableOfContents (H := example_host) (initial "u" tt)))
    = (trace (initial (W := unit) "u" tt) ++ t)%list
    /\ range_reads t = 2%nat.
Proof.
  destruct (readTableOfContents_requests (H := example_host)
              (initial "u" tt))
    as (t & Htr & _ & _ & _ & Hok & _).
  exists t. split; [exact Htr|].
  apply (Hok (expected_listing (H := example_host) example_archive)).
  vm_compute. reflexivity.
Defined.

Lemma resolved_offset_of_ascii_name_witness :
  exists l,
    localHeaderOffset (entry_of_record (H := example_host) example_file)
    = Num l
    /\ len (fileName (entry_of_record (H := example_host) example_file)) = 7
    /\ utf8_byte_length
         (fileName (entry_of_record (H := example_host) example_file)) = 7
    /\ dataOffset (calculateFileDataOffset
                     (entry_of_record (H := example_host) example_file))
       = Some (Num (l + 30 + 7)).
Proof.
  refine (resolved_offset_of_ascii_name (H := example_host)
            (central_directory example_archive) 48
            (entry_of_record (H := example_host) example_file) 101 7
            _ _ _ _).
  - vm_compute. reflexivity.
  - vm_compute. reflexivity.
  - vm_compute. discriminate.
  - unfold ascii_name. vm_compute. repeat constructor.
Defined.

Lemma extractFile_returns_file_data_witness :
  exists blob,
    fst (extractFile (H := example_host)
           (processEntry (entry_of_record (H := example_host) example_file))
           (initial "u" tt))
    = Ok (blob, calculateFileDataOffset
                  (entry_of_record (H := example_host) example_file))
    /\ blob_bytes blob = [x01; x02; x03].
Proof.
  refine (extractFile_returns_file_data (H := example_host)
            example_archive example_file
            (encodeLocalHeader example_dir) [x01; x02; x03] []
            (initial "u" tt) _ _ _ _ _ _).
  - exact example_host_serves.
  - vm_compute. reflexivity.
  - vm_compute. reflexivity.
  - vm_compute. reflexivity.
  - vm_compute. discriminate.
  - unfold ascii_name. vm_compute. repeat constructor.
Defined.

Lemma extractFile_starts_at_extra_field_witness :
  exists blob,
    fst (extractFile (H := extra_field_host)
           (processEntry
              (entry_of_record (H := extra_field_host) extra_field_file))
           (initial "u" tt))
    = Ok (blob, calculateFileDataOffset
                  (entry_of_record (H := extra_field_host) extra_field_file))
    /\ blob_bytes blob = [xaa; xbb; x01].
Proof.
  destruct (extractFile_starts_at_extra_field (H := extra_field_host)
              extra_field_archive extra_field_file
              [] [xaa; xbb] [x01; x02; x03] [] (initial "u" tt))
    as (blob & Hres & Hbytes & _).
  - exact extra_field_host_serves.
  - vm_compute. reflexivity.
  - vm_compute. reflexivity.
  - vm_compute. reflexivity.
  - vm_compute. discriminate.
  - unfold ascii_name. vm_compute. repeat constructor.
  - exists blob. split; [exact Hres | exact Hbytes].
Defined.

Lemma extractFile_outcome_witness :
  number_of
    (dataOffset
       (resolveIfNeeded (entry_of_record (H := example_host) example_file)))
  = (localHeaderOffset (entry_of_record (H := example_host) example_file)
     + Num 30
     + Num (Z.of_nat
              (List.length
                 (fileName
                    (entry_of_record (H := example_host) example_file))))
     + Num 0)%js.
Proof.
  refine (proj2 (proj2 (proj2
    (extractFile_outcome (H := example_host)
       (entry_of_record (H := example_host) example_file)
       (initial "u" tt)))) _).
  reflexivity.
Defined.

Lemma extractFile_kind_agrees_with_isImage_witness :
  exists blob e2,
    fst (extractFile (H := example_host)
           (entry_of_record (H := example_host) example_file)
           (initial "u" tt)) = Ok (blob, e2)
    /\ (isImage (entry_of_record (H := example_host) example_file)
        = Some true <-> blob_type blob <> EmptyString)
    /\ isImage e2
       = isImage (entry_of_record (H := example_host) example_file).
Proof.
  do 2 eexists. split; [vm_compute; reflexivity|].
  refine (extractFile_kind_agrees_with_isImage (H := example_host)
            (central_directory example_archive) 48
            (entry_of_record (H := example_host) example_file) 101
            (initial "u" tt)
            (entry_of_record (H := example_host) example_file)
            _ _ _ _ _ _).
  - vm_compute. reflexivity.
  - vm_compute. reflexivity.
  - left. reflexivity.
  - vm_compute. reflexivity.
Defined.

Lemma getSzi_requests_witness :
  exists t,
    trace (snd (getSzi (H := example_host) "u" tt)) = Head "u" :: t
    /\ head_requests t = 0%nat
    /\ range_reads t = 2%nat.
Proof.
  destruct (getSzi_requests (H := example_host) "u" tt)
    as (t & Htr & _ & _ & Hhead & Hok & _).
  exists t. split; [exact Htr|]. split.
  - apply Hhead. vm_compute. reflexivity.
  - apply Hok. vm_compute. reflexivity.
Defined.


Lemma page_extracts_resolved_files_only_witness :
  Forall
    (fun e =>
       (isDirectory e = true -> entry_action e = NoAction)
       /\ (entry_action e <> NoAction ->
           isDirectory e = false
           /\ resolveIfNeeded e = e
           /\ exists d, dataOffset e = Some (Num d) /\ 30 <= d))
    (expected_listing (H := example_host) example_archive).
Proof.
  refine (page_extracts_resolved_files_only (H := example_host)
            (initial "u" tt)
            (expected_listing (H := example_host) example_archive) _).
  vm_compute. reflexivity.
Defined.
Lemma findEOCD_size_not_a_number_witness :
  snd (findEOCD (H := unparsable_length_host) (initial "u" tt))
  = after_request (H := unparsable_length_host)
      (GetRange "u" NaN NaN)
      (snd (getFileSize (H := unparsable_length_host) (initial "u" tt))).
Proof.
  refine (proj1 (findEOCD_size_not_a_number (H := unparsable_length_host)
                   (initial "u" tt)
                   (snd (getFileSize (H := unparsable_length_host)
                           (initial "u" tt)))
                   _ _)).
  - right. split; [reflexivity|]. exists NaN. vm_compute. reflexivity.
  - vm_compute. reflexivity.
Defined.
